(** * cassandra_io: the polygon file index ([polygon_index.py])

    A shallow embedding of [Polygon_File_Index] and of the parts of its
    collaborators (the [rtree] bounding-box index, the [shapely] geometry
    kernel, [hashlib], [json]) that the index relies on, followed by the
    properties of the index.

    Conventions of the embedding.
    - Python floats are read as rationals ([Q]); no rounding is modelled.
    - A record ([data]) is the Python dict restricted to the shape the
      docstring of [insert] prescribes: an optional string under ['file'],
      an optional coordinate list under ['polygon'], and any other fields.
    - Methods that mutate [self] are computations [M S A] over the object
      state: they return the outcome (a value or the raised exception)
      together with the state the object is left in.
    - [rtree] pickles the object it is given and unpickles a fresh copy on
      every query, so payloads have value semantics.
    - The tree is the list of its entries; identifiers are kept as
      signed 64-bit integers, the order in which a query returns entries
      is a parameter ([traverse]), and the digest is a parameter
      ([hash_string]).
    - The kernel's polygon constructor and its [intersection] can raise;
      the other operations of the kernel return.
    - A file holds the list that [json.load] returns; encoding and decoding
      are not modelled. *)

From Stdlib Require Import QArith.
From Stdlib Require Import Lqa.
From stdpp Require Import gmap strings list.

Open Scope Q_scope.
Open Scope string_scope.
Open Scope list_scope.
Open Scope stdpp_scope.

(** ** Exceptions and the state-and-exception monad *)

Inductive exn : Type :=
| RuntimeError (msg : string)
| KeyError (key : string)
| RTreeError (msg : string)
| FileNotFoundError (fn : string)
| ValueError (msg : string)
| GEOSException (msg : string).

Inductive result (A : Type) : Type :=
| Ok (a : A)
| Raise (e : exn).
Arguments Ok {A} a.
Arguments Raise {A} e.

Definition M (S A : Type) : Type := S -> result A * S.

Definition ret {S A} (a : A) : M S A := fun s => (Ok a, s).

Definition bind {S A B} (c : M S A) (k : A -> M S B) : M S B :=
  fun s => match c s with
           | (Ok a, s') => k a s'
           | (Raise e, s') => (Raise e, s')
           end.

Definition raise {S A} (e : exn) : M S A := fun s => (Raise e, s).

Definition lift {S A} (r : result A) : M S A := fun s => (r, s).

Definition gets {S A} (f : S -> A) : M S A := fun s => (Ok (f s), s).

Definition modify {S} (f : S -> S) : M S unit := fun s => (Ok tt, f s).

(** [try: c except: h] is Python's bare [try/except]: any exception of
    [c] is swallowed and [h] runs in the state [c] left behind. *)
Definition try_except {S A} (c : M S A) (h : M S A) : M S A :=
  fun s => match c s with
           | (Ok a, s') => (Ok a, s')
           | (Raise _, s') => h s'
           end.

Declare Scope py_scope.
Delimit Scope py_scope with py.
Notation "x <~ c ; k" := (bind c (fun x => k))
  (at level 100, c at next level, right associativity) : py_scope.
Notation "c ;; k" := (bind c (fun _ => k))
  (at level 100, right associativity) : py_scope.
Open Scope py_scope.

(** ** Records *)

Inductive value : Type :=
| VNone
| VBool (b : bool)
| VInt (z : Z)
| VStr (s : string).

Definition coord : Type := (Q * Q)%type.

(** The dict passed to [insert]/[update] and stored as the tree payload. *)
Record data : Type := mk_data {
  file : option string;
  polygon : option (list coord);
  extra : gmap string value
}.

(** [data['file']] and [data['polygon']]. *)
Definition getitem_file (d : data) : result string :=
  match file d with
  | Some k => Ok k
  | None => Raise (KeyError "file")
  end.

Definition getitem_polygon (d : data) : result (list coord) :=
  match polygon d with
  | Some c => Ok c
  | None => Raise (KeyError "polygon")
  end.

(** [data.update({'polygon': c})]. *)
Definition dict_update_polygon (d : data) (c : list coord) : data :=
  {| file := file d; polygon := Some c; extra := extra d |}.

(** ** Bounding boxes *)

Record BBox : Type := mk_bbox { minx : Q; miny : Q; maxx : Q; maxy : Q }.

Definition qmin (a b : Q) : Q := if Qle_bool a b then a else b.
Definition qmax (a b : Q) : Q := if Qle_bool a b then b else a.

(** ** The geometry kernel ([shapely.geometry]) *)

Module geometry.

(** The operations of the kernel that the index calls.  [Polygon] is the
    constructor from a coordinate sequence, which raises on sequences that
    make no ring; [geom] is the type of an arbitrary geometry as returned
    by [intersection], which raises on rings it cannot overlay. *)
Class Kernel : Type := {
  polygon_t : Type;
  geom : Type;
  Polygon : list coord -> result polygon_t;
  bounds : polygon_t -> BBox;
  almost_equals : polygon_t -> polygon_t -> bool;
  (** [pl.intersects(geometry.Point(point))] *)
  intersects_Point : polygon_t -> coord -> bool;
  intersection : polygon_t -> polygon_t -> result geom;
  is_empty : geom -> bool;
  (** [isinstance(g, geometry.Polygon)], with the downcast *)
  as_Polygon : geom -> option polygon_t;
  (** [list(pl.exterior.coords)] *)
  exterior_coords : polygon_t -> list coord
}.

End geometry.

(** ** The bounding-box tree ([rtree.index]) *)

Module index.

(** An entry of the tree, as returned with [objects=True]. *)
Record Item : Type := mk_item { id : Z; bbox : BBox; object : data }.

(** The tree is modelled by its entries in insertion order. *)
Definition Index : Type := list Item.

(** The largest finite double, [(2 - 2^-52) * 2^1023]. *)
Definition DBL_MAX : Q := inject_Z ((2 ^ 53 - 1) * 2 ^ 971).

(** [Index.get_coordinate_pointers]: every call that takes coordinates
    rejects boxes whose minimum exceeds the maximum. *)
Definition valid (b : BBox) : bool :=
  Qle_bool (minx b) (maxx b) && Qle_bool (miny b) (maxy b).

Definition get_coordinate_pointers (b : BBox) : result unit :=
  if valid b then Ok tt
  else Raise (RTreeError "Coordinates must not have minimums more than maximums").

(** A point [(x, y)] given as coordinates is doubled to [(x, y, x, y)]. *)
Definition of_point (p : coord) : BBox :=
  {| minx := fst p; miny := snd p; maxx := fst p; maxy := snd p |}.

(** Closed boxes overlap when they do so on both axes. *)
Definition overlaps (q b : BBox) : bool :=
  Qle_bool (minx q) (maxx b) && Qle_bool (minx b) (maxx q) &&
  Qle_bool (miny q) (maxy b) && Qle_bool (miny b) (maxy q).

Definition bbox_eqb (a b : BBox) : bool :=
  Qeq_bool (minx a) (minx b) && Qeq_bool (miny a) (miny b) &&
  Qeq_bool (maxx a) (maxx b) && Qeq_bool (maxy a) (maxy b).

(** Squared minimum distance between two boxes. *)
Definition gap (lo hi qlo qhi : Q) : Q :=
  if Qle_bool qhi lo then lo - qhi
  else if Qle_bool hi qlo then qlo - hi
  else 0.

Definition dist2 (q b : BBox) : Q :=
  let dx := gap (minx b) (maxx b) (minx q) (maxx q) in
  let dy := gap (miny b) (maxy b) (miny q) (maxy q) in
  dx * dx + dy * dy.

(** [index.Index()] *)
Definition empty : Index := [].

(** An identifier is passed to the tree as a signed 64-bit integer: an
    integer outside that range wraps around. *)
Definition c_int64 (z : Z) : Z := (z + 2 ^ 63) mod 2 ^ 64 - 2 ^ 63.

(** [idx.insert(id, coordinates, obj)] *)
Definition insert (i : Z) (coordinates : BBox) (obj : data) (t : Index)
  : result Index :=
  match get_coordinate_pointers coordinates with
  | Ok _ => Ok (t ++ [mk_item (c_int64 i) coordinates obj])
  | Raise e => Raise e
  end.

(** [idx.delete(id, coordinates)] removes one entry with this identifier
    and exactly this box, if there is one. *)
Fixpoint remove_entry (i : Z) (b : BBox) (t : Index) : Index :=
  match t with
  | [] => []
  | it :: t' =>
      if Z.eqb (id it) i && bbox_eqb (bbox it) b then t'
      else it :: remove_entry i b t'
  end.

Definition delete (i : Z) (coordinates : BBox) (t : Index) : result Index :=
  match get_coordinate_pointers coordinates with
  | Ok _ => Ok (remove_entry (c_int64 i) coordinates t)
  | Raise e => Raise e
  end.

(** [idx.bounds]: the box of the root node.  Of an empty tree it is the
    inverted box of the largest doubles. *)
Definition extend (b : BBox) (it : Item) : BBox :=
  {| minx := qmin (minx b) (minx (bbox it));
     miny := qmin (miny b) (miny (bbox it));
     maxx := qmax (maxx b) (maxx (bbox it));
     maxy := qmax (maxy b) (maxy (bbox it)) |}.

Definition bounds (t : Index) : BBox :=
  fold_left extend t
    {| minx := DBL_MAX; miny := DBL_MAX; maxx := - DBL_MAX; maxy := - DBL_MAX |}.

(** [idx.count(coordinates)] *)
Definition count (coordinates : BBox) (t : Index) : result nat :=
  match get_coordinate_pointers coordinates with
  | Ok _ => Ok (length (List.filter (fun it => overlaps coordinates (bbox it)) t))
  | Raise e => Raise e
  end.

(** [idx.get_size()] is [count(bounds)], and [0] when that raises. *)
Definition get_size (t : Index) : nat :=
  match count (bounds t) t with
  | Ok n => n
  | Raise _ => 0%nat
  end.

Fixpoint insert_sorted (d : Q) (l : list Q) : list Q :=
  match l with
  | [] => [d]
  | x :: l' => if Qle_bool d x then d :: l else x :: insert_sorted d l'
  end.

Definition sort (l : list Q) : list Q := fold_right insert_sorted [] l.

Section queries.

(** The order in which a query walks the tree depends on how the tree is
    balanced; it is some rearrangement of the entries. *)
Variable traverse : Index -> Index.

(** [idx.intersection(coordinates, objects=True)] *)
Definition intersection (coordinates : BBox) (t : Index) : result (list Item) :=
  match get_coordinate_pointers coordinates with
  | Ok _ => Ok (List.filter (fun it => overlaps coordinates (bbox it)) (traverse t))
  | Raise e => Raise e
  end.

(** [idx.intersection(coordinates, objects='raw')] *)
Definition intersection_raw (coordinates : BBox) (t : Index) : result (list data) :=
  match intersection coordinates t with
  | Ok its => Ok (object <$> its)
  | Raise e => Raise e
  end.

(** [idx.nearest(coordinates, num_results, objects='raw')], for
    [num_results >= 1]: the [num_results] entries closest by box, and every
    further entry as close as the last of them. *)
Definition nearest_raw (coordinates : BBox) (num_results : nat) (t : Index)
  : result (list data) :=
  match get_coordinate_pointers coordinates with
  | Ok _ =>
      match sort ((fun it => dist2 coordinates (bbox it)) <$> t) !! (num_results - 1)%nat with
      | Some knearest =>
          Ok (object <$>
                List.filter (fun it => Qle_bool (dist2 coordinates (bbox it)) knearest)
                  (traverse t))
      | None => Ok (object <$> traverse t)
      end
  | Raise e => Raise e
  end.

End queries.

(** Every stored box passed the check of [insert]. *)
Definition all_valid (t : Index) : Prop :=
  Forall (fun it => valid (bbox it) = true) t.

End index.

(** ** The persisted format ([json]) *)

(** One element of the saved list.  A file written by somebody else may
    lack any of the three fields. *)
Record entry : Type := mk_entry {
  e_id : option Z;
  e_bbox : option BBox;
  e_object : option data
}.

Definition getitem_id (x : entry) : result Z :=
  match e_id x with Some i => Ok i | None => Raise (KeyError "id") end.

Definition getitem_bbox (x : entry) : result BBox :=
  match e_bbox x with Some b => Ok b | None => Raise (KeyError "bbox") end.

Definition getitem_object (x : entry) : result data :=
  match e_object x with Some o => Ok o | None => Raise (KeyError "object") end.

(** The files of the file system, each holding a decoded JSON list:
    [json.load] of what [json.dump] wrote gives the list back. *)
Abbreviation files := (gmap string (list entry)).

(** [for x in l: body(x)] *)
Fixpoint for_ {S A} (l : list A) (body : A -> M S unit) : M S unit :=
  match l with
  | [] => ret tt
  | x :: l' => body x ;; for_ l' body
  end.

(** ** The index ([Polygon_File_Index]) *)

Section Polygon_File_Index.

Context {K : geometry.Kernel}.
Import geometry.

(** [hashlib.md5] of the UTF-8 encoding, read as an integer. *)
Variable hash_string : string -> Z.

Variable traverse : index.Index -> index.Index.

Record Polygon_File_Index : Type := mk_index {
  _polygons : gmap string polygon_t;
  _rtree : index.Index
}.

Definition __init__ : Polygon_File_Index :=
  {| _polygons := ∅; _rtree := index.empty |}.

Definition set_polygons (f : gmap string polygon_t -> gmap string polygon_t)
  (self : Polygon_File_Index) : Polygon_File_Index :=
  {| _polygons := f (_polygons self); _rtree := _rtree self |}.

(** A mutating call on [self._rtree]; when it raises the tree is as before. *)
Definition rtree_call (f : index.Index -> result index.Index)
  : M Polygon_File_Index unit :=
  fun self => match f (_rtree self) with
              | Ok t => (Ok tt, {| _polygons := _polygons self; _rtree := t |})
              | Raise e => (Raise e, self)
              end.

Definition _check_data (d : data) : result unit :=
  match file d with
  | None => Raise (RuntimeError "'file' not in data")
  | Some _ =>
      match polygon d with
      | None => Raise (RuntimeError "'polygon' not in data")
      | Some _ => Ok tt
      end
  end.

Definition insert (d : data) : M Polygon_File_Index unit :=
  lift (_check_data d) ;;
  k <~ lift (getitem_file d) ;
  polys <~ gets _polygons ;
  match polys !! k with
  | Some _ => ret tt
  | None =>
      c <~ lift (getitem_polygon d) ;
      pl <~ lift (Polygon c) ;
      modify (set_polygons <[k := pl]>) ;;
      rtree_call (index.insert (hash_string k) (bounds pl) d)
  end.

Definition update (d : data) : M Polygon_File_Index bool :=
  lift (_check_data d) ;;
  k <~ lift (getitem_file d) ;
  polys <~ gets _polygons ;
  match polys !! k with
  | None => insert d ;; ret true
  | Some pl =>
      c <~ lift (getitem_polygon d) ;
      new <~ lift (Polygon c) ;
      if almost_equals pl new then ret false
      else
        rtree_call (index.delete (hash_string k) (bounds pl)) ;;
        modify (set_polygons (delete k)) ;;
        insert d ;;
        ret true
  end.

(** What a generator produced: the values it yielded and, when it ended
    by raising, the exception. *)
Definition gen (A : Type) : Type := (list A * option exn)%type.

Fixpoint nearest_loop (self : Polygon_File_Index) (point : coord)
  (cands : list data) : gen data :=
  match cands with
  | [] => ([], None)
  | d :: rest =>
      match getitem_file d with
      | Raise e => ([], Some e)
      | Ok k =>
          match _polygons self !! k with
          | None => ([], Some (KeyError k))
          | Some pl =>
              let r := nearest_loop self point rest in
              if intersects_Point pl point then (d :: fst r, snd r) else r
          end
      end
  end.

Definition nearest (point : coord) (self : Polygon_File_Index) : gen data :=
  match index.nearest_raw traverse (index.of_point point) 1 (_rtree self) with
  | Raise e => ([], Some e)
  | Ok cands => nearest_loop self point cands
  end.

(** The body of the loop of [intersect]; it runs on [res]. *)
Definition intersect_body (self : Polygon_File_Index) (query : polygon_t)
  (d : data) : M Polygon_File_Index unit :=
  k <~ lift (getitem_file d) ;
  match _polygons self !! k with
  | None => raise (KeyError k)
  | Some pl =>
      schnitt <~ lift (intersection query pl) ;
      if is_empty schnitt then ret tt
      else
        match as_Polygon schnitt with
        | None => ret tt
        | Some sp => insert (dict_update_polygon d (exterior_coords sp))
        end
  end.

Definition intersect (polygon : list coord) (self : Polygon_File_Index)
  : result Polygon_File_Index :=
  let res := __init__ in
  match Polygon polygon with
  | Raise e => Raise e
  | Ok query =>
      if Nat.eqb (index.get_size (_rtree self)) 0 then Ok res
      else
        match index.intersection_raw traverse (bounds query) (_rtree self) with
        | Raise e => Raise e
        | Ok cands =>
            match for_ cands (intersect_body self query) res with
            | (Ok _, res') => Ok res'
            | (Raise e, _) => Raise e
            end
        end
  end.

Definition filter (how : data -> bool) (self : Polygon_File_Index)
  : result Polygon_File_Index :=
  let res := __init__ in
  if Nat.eqb (index.get_size (_rtree self)) 0 then Ok res
  else
    match index.intersection_raw traverse (index.bounds (_rtree self)) (_rtree self) with
    | Raise e => Raise e
    | Ok cands =>
        match for_ cands (fun d => if how d then insert d else ret tt) res with
        | (Ok _, res') => Ok res'
        | (Raise e, _) => Raise e
        end
    end.

Definition size (self : Polygon_File_Index) : nat :=
  index.get_size (_rtree self).

Definition entry_of (x : index.Item) : entry :=
  {| e_id := Some (index.id x);
     e_bbox := Some (index.bbox x);
     e_object := Some (index.object x) |}.

(** [save] runs on the file system; [self] is only read. *)
Definition save (fn : string) (self : Polygon_File_Index) : M files unit :=
  xs <~ lift (index.intersection traverse (index.bounds (_rtree self)) (_rtree self)) ;
  modify (<[fn := entry_of <$> xs]>).

(** The body of the loop of [load]. *)
Definition load_body (x : entry) : M Polygon_File_Index unit :=
  ok <~ try_except
          (o <~ lift (getitem_object x) ; lift (_check_data o) ;; ret true)
          (ret false) ;
  if ok : bool then
    i <~ lift (getitem_id x) ;
    b <~ lift (getitem_bbox x) ;
    o <~ lift (getitem_object x) ;
    rtree_call (index.insert i b o) ;;
    c <~ lift (getitem_polygon o) ;
    pl <~ lift (Polygon c) ;
    k <~ lift (getitem_file o) ;
    modify (set_polygons <[k := pl]>)
  else ret tt.

Definition load (fs : files) (fn : string) : M Polygon_File_Index unit :=
  match fs !! fn with
  | None => raise (FileNotFoundError fn)
  | Some xs => for_ xs load_body
  end.

(** The identifier the tree keeps for a key. *)
Definition node_id (k : string) : Z := index.c_int64 (hash_string k).

(** The state [insert] builds for a key that is not registered, from the
    polygon it constructed. *)
Definition inserted (k : string) (pl : polygon_t) (d : data)
  (self : Polygon_File_Index) : Polygon_File_Index :=
  {| _polygons := <[k := pl]> (_polygons self);
     _rtree := _rtree self ++ [index.mk_item (node_id k) (bounds pl) d] |}.

(** The state [update] leaves before it inserts the replacement. *)
Definition removed (k : string) (pl : polygon_t)
  (self : Polygon_File_Index) : Polygon_File_Index :=
  {| _polygons := delete k (_polygons self);
     _rtree := index.remove_entry (node_id k) (bounds pl) (_rtree self) |}.

(** The tree [load] has after it inserted the entry, before it builds the
    polygon. *)
Definition entered (i : Z) (b : BBox) (o : data)
  (self : Polygon_File_Index) : Polygon_File_Index :=
  {| _polygons := _polygons self;
     _rtree := _rtree self ++ [index.mk_item (index.c_int64 i) b o] |}.

(** The state [load] builds from an entry it accepts, with the polygon it
    constructed. *)
Definition appended (i : Z) (b : BBox) (o : data) (k : string) (pl : polygon_t)
  (self : Polygon_File_Index) : Polygon_File_Index :=
  {| _polygons := <[k := pl]> (_polygons self);
     _rtree := _rtree self ++ [index.mk_item (index.c_int64 i) b o] |}.

(** The record [intersect] derives from a candidate, if it keeps it. *)
Definition clipped (self : Polygon_File_Index) (query : polygon_t) (d : data)
  : option data :=
  match file d with
  | None => None
  | Some k =>
      match _polygons self !! k with
      | None => None
      | Some pl =>
          match intersection query pl with
          | Raise _ => None
          | Ok schnitt =>
              if is_empty schnitt then None
              else
                match as_Polygon schnitt with
                | None => None
                | Some sp => Some (dict_update_polygon d (exterior_coords sp))
                end
          end
      end
  end.

(** The kernel intersects the query with the registered polygon of the
    record, and when the intersection is a non-empty polygon, its exterior
    coordinates make a polygon with a box the tree accepts. *)
Definition clip_accepted (self : Polygon_File_Index) (query : polygon_t) (d : data)
  : Prop :=
  forall k pl, file d = Some k -> _polygons self !! k = Some pl ->
    exists g, intersection query pl = Ok g /\
      (is_empty g = false -> forall sp, as_Polygon g = Some sp ->
         exists npl, Polygon (exterior_coords sp) = Ok npl /\
                     index.valid (bounds npl) = true).

(** The record is registered under its key with a polygon that meets the
    point. *)
Definition contains (self : Polygon_File_Index) (point : coord) (d : data) : Prop :=
  exists k pl, file d = Some k /\ _polygons self !! k = Some pl /\
               intersects_Point pl point = true.

(** ** Sequences of mutations *)

Inductive op : Type :=
| Insert (d : data)
| Update (d : data).

Definition op_data (o : op) : data :=
  match o with Insert d => d | Update d => d end.

Definition step (o : op) : M Polygon_File_Index unit :=
  match o with
  | Insert d => insert d
  | Update d => update d ;; ret tt
  end.

Definition run (ops : list op) : M Polygon_File_Index unit := for_ ops step.

(** The keys the operations carry. *)
Definition keys (ops : list op) : list string :=
  omap (fun o => file (op_data o)) ops.

(** No two distinct keys of the list get the same identifier in the
    tree. *)
Definition collision_free (ks : list string) : Prop :=
  forall k1 k2, k1 ∈ ks -> k2 ∈ ks -> node_id k1 = node_id k2 -> k1 = k2.

(** The same, as a test. *)
Definition collision_freeb (ks : list string) : bool :=
  forallb (fun k1 =>
    forallb (fun k2 => bool_decide (k1 = k2) || negb (Z.eqb (node_id k1) (node_id k2))) ks) ks.

(** ** Consistency of the registry and the tree *)

Definition item_key (it : index.Item) : option string := file (index.object it).

(** The entry is the one [insert] makes for the registered polygon of its
    key. *)
Definition indexed (self : Polygon_File_Index) (it : index.Item) : Prop :=
  exists k c pl,
    file (index.object it) = Some k /\
    polygon (index.object it) = Some c /\
    Polygon c = Ok pl /\
    _polygons self !! k = Some pl /\
    index.id it = node_id k /\
    index.bbox it = bounds pl /\
    index.valid (index.bbox it) = true.

Record consistent (self : Polygon_File_Index) : Prop := {
  tree_in_registry : Forall (indexed self) (_rtree self);
  registry_in_tree :
    forall k, is_Some (_polygons self !! k) ->
              exists it, it ∈ _rtree self /\ item_key it = Some k;
  one_entry_per_key : NoDup (item_key <$> _rtree self);
  same_cardinality : length (_rtree self) = base.size (_polygons self)
}.

(** ** Enumeration ([files], [iterate]) *)

(** [yield from xs] *)
Definition yield_from {A} (xs : list A) : gen A := (xs, None).

(** Two parts of a generator body one after the other: the second runs
    unless the first raised. *)
Definition gen_then {A} (g1 g2 : gen A) : gen A :=
  match snd g1 with
  | Some _ => g1
  | None => (fst g1 ++ fst g2, snd g2)
  end.

(** What [data[what]] can be: a plain value or a coordinate list. *)
Inductive pyobj : Type :=
| PyValue (v : value)
| PyCoords (c : list coord).

(** [data[what]] when [what in data]. *)
Definition getitem (what : string) (d : data) : option pyobj :=
  if decide (what = "file") then (fun k => PyValue (VStr k)) <$> file d
  else if decide (what = "polygon") then PyCoords <$> polygon d
  else PyValue <$> extra d !! what.

(** The guard that opens [files] and [iterate]: [yield from ()] yields
    nothing and the body goes on. *)
Definition empty_guard {A} (self : Polygon_File_Index) : gen A :=
  if Nat.eqb (index.get_size (_rtree self)) 0 then yield_from [] else ([], None).

(** The method [files]; the name [files] is taken by the file system. *)
Definition files_gen (what : string) (self : Polygon_File_Index) : gen pyobj :=
  gen_then (empty_guard self)
    match index.intersection_raw traverse (index.bounds (_rtree self)) (_rtree self) with
    | Raise e => ([], Some e)
    | Ok ds => ((fun d => default (PyValue VNone) (getitem what d)) <$> ds, None)
    end.

Definition iterate (self : Polygon_File_Index) : gen data :=
  gen_then (empty_guard self)
    match index.intersection_raw traverse (index.bounds (_rtree self)) (_rtree self) with
    | Raise e => ([], Some e)
    | Ok ds => (ds, None)
    end.

(** ** Any use of the mutating methods *)

Inductive call : Type :=
| Call_insert (d : data)
| Call_update (d : data)
| Call_load (fs : files) (fn : string).

(** The index after a call, whether the call returned or raised. *)
Definition perform (self : Polygon_File_Index) (c : call) : Polygon_File_Index :=
  match c with
  | Call_insert d => snd (insert d self)
  | Call_update d => snd (update d self)
  | Call_load fs fn => snd (load fs fn self)
  end.

Definition after (cs : list call) : Polygon_File_Index := foldl perform __init__ cs.

(** Every payload of the file a call loads carries coordinates from which
    the kernel builds a polygon. *)
Definition rings_ok (cl : call) : Prop :=
  match cl with
  | Call_load fs fn =>
      forall xs x o c, fs !! fn = Some xs -> x ∈ xs -> e_object x = Some o ->
                       polygon o = Some c -> exists pl, Polygon c = Ok pl
  | _ => True
  end.

(** The entry has an identifier of the tree's range, a box the tree
    accepts and a payload with both fields, whose coordinates make a
    polygon and whose key is registered. *)
Definition entry_ok (self : Polygon_File_Index) (it : index.Item) : Prop :=
  index.c_int64 (index.id it) = index.id it /\
  index.valid (index.bbox it) = true /\
  exists k c pl, file (index.object it) = Some k /\
                 polygon (index.object it) = Some c /\
                 Polygon c = Ok pl /\
                 is_Some (_polygons self !! k).

Definition tree_ok (self : Polygon_File_Index) : Prop :=
  Forall (entry_ok self) (_rtree self).

(** What a step may do: every entry of the tree afterwards was there
    before or is a sound new one, and no key has left the registry. *)
Definition grows (self self' : Polygon_File_Index) : Prop :=
  (forall it, it ∈ _rtree self' -> it ∈ _rtree self \/ entry_ok self' it) /\
  dom (_polygons self) ⊆ dom (_polygons self').

(** What [load] reads from an entry whose payload passes the check. *)
Definition entry_key (x : entry) : option string :=
  match e_object x with Some o => file o | None => None end.

Definition entry_coords (x : entry) : option (list coord) :=
  match e_object x with Some o => polygon o | None => None end.

(** The entry has all [load] asks for: an identifier, a box the tree
    accepts, and a payload with both fields whose coordinates make a
    polygon. *)
Definition loadable (x : entry) : Prop :=
  is_Some (e_id x) /\ (exists b, e_bbox x = Some b /\ index.valid b = true) /\
  is_Some (entry_key x) /\
  exists c pl, entry_coords x = Some c /\ Polygon c = Ok pl.

(** The tree entry [load] makes of an entry it accepts. *)
Definition item_of (x : entry) : option index.Item :=
  match e_id x, e_bbox x, e_object x with
  | Some i, Some b, Some o => Some (index.mk_item (index.c_int64 i) b o)
  | _, _, _ => None
  end.

(** The exception is one the tree raises, or one the kernel raised from
    its constructor or from [intersection]. *)
Definition raised_by_collaborator (e : exn) : Prop :=
  (exists msg, e = RTreeError msg) \/
  (exists c, Polygon c = Raise e) \/
  (exists q pl, intersection q pl = Raise e).

End Polygon_File_Index.

(** ** A concrete kernel: planar geometry over the rationals

    Polygons are closed rings of rational points, built from no point or
    from three and more.  Point containment is the crossing-number test
    with the boundary included; [intersection] clips the stored ring
    against the query ring edge by edge, which is exact when the query is
    convex.  It serves to run the index on concrete inputs. *)

Module planar.

Definition coord_eqb (a b : coord) : bool :=
  Qeq_bool (fst a) (fst b) && Qeq_bool (snd a) (snd b).

(** A ring is closed by repeating its first point when need be. *)
Definition close (r : list coord) : list coord :=
  match r with
  | [] => []
  | a :: _ => if coord_eqb a (List.last r a) then r else r ++ [a]
  end.

(** The constructor: no point makes the empty polygon, one or two points
    make no ring, three points are closed by the first, more are closed
    when need be. *)
Definition make (c : list coord) : result (list coord) :=
  match c with
  | [] => Ok []
  | a :: _ =>
      if (length c <? 3)%nat
      then Raise (ValueError "A linearring requires at least 4 coordinates.")
      else if (length c =? 3)%nat then Ok (c ++ [a])
      else Ok (close c)
  end.

(** The vertices of a closed ring without the repeated end. *)
Definition vertices (r : list coord) : list coord :=
  match r with
  | [] => []
  | a :: _ => if coord_eqb a (List.last r a) then removelast r else r
  end.

(** The edges of a closed ring. *)
Fixpoint edges (r : list coord) : list (coord * coord) :=
  match r with
  | a :: (b :: _) as r' => (a, b) :: edges r'
  | _ => []
  end.

Definition cross (a b p : coord) : Q :=
  (fst b - fst a) * (snd p - snd a) - (snd b - snd a) * (fst p - fst a).

Definition ring_bounds (r : list coord) : BBox :=
  match r with
  | [] => {| minx := 0; miny := 0; maxx := 0; maxy := 0 |}
  | a :: r' =>
      fold_left
        (fun b p => {| minx := qmin (minx b) (fst p); miny := qmin (miny b) (snd p);
                       maxx := qmax (maxx b) (fst p); maxy := qmax (maxy b) (snd p) |})
        r' {| minx := fst a; miny := snd a; maxx := fst a; maxy := snd a |}
  end.

Definition between (a b x : Q) : bool :=
  Qle_bool (qmin a b) x && Qle_bool x (qmax a b).

Definition on_edge (p : coord) (e : coord * coord) : bool :=
  Qeq_bool (cross (fst e) (snd e) p) 0 &&
  between (fst (fst e)) (fst (snd e)) (fst p) &&
  between (snd (fst e)) (snd (snd e)) (snd p).

Definition Qlt_bool (a b : Q) : bool := negb (Qle_bool b a).

(** Does the ray from [p] towards larger x cross the edge? *)
Definition crosses (p : coord) (e : coord * coord) : bool :=
  let '((x1, y1), (x2, y2)) := e in
  let '(x, y) := p in
  if Bool.eqb (Qlt_bool y y1) (Qlt_bool y y2) then false
  else Qlt_bool x (x1 + (y - y1) * (x2 - x1) / (y2 - y1)).

Definition contains_point (r : list coord) (p : coord) : bool :=
  existsb (on_edge p) (edges r) ||
  Nat.odd (length (List.filter (crosses p) (edges r))).

(** [equals_exact] with the tolerance of [almost_equals]: the rings have
    the same number of points, pairwise within [0.5e-6]. *)
Definition tolerance : Q := 1 # 2000000.

Fixpoint equals_exact (r s : list coord) : bool :=
  match r, s with
  | [], [] => true
  | a :: r', b :: s' =>
      let dx := fst a - fst b in
      let dy := snd a - snd b in
      Qle_bool (dx * dx + dy * dy) (tolerance * tolerance) && equals_exact r' s'
  | _, _ => false
  end.

(** Twice the signed area of a closed ring. *)
Definition area2 (r : list coord) : Q :=
  fold_right (fun e acc => fst (fst e) * snd (snd e) - fst (snd e) * snd (fst e) + acc)
    0 (edges r).

(** Where the segment [p q] meets the line through [a] and [b]. *)
Definition meet (a b p q : coord) : coord :=
  let t := cross a b p / (cross a b p - cross a b q) in
  (Qred (fst p + t * (fst q - fst p)), Qred (snd p + t * (snd q - snd p))).

(** One pass of the clipping: keep the part of the closed ring [r] on the
    inner side of the line through [a] and [b]. *)
Definition clip_edge (inside : coord -> coord -> coord -> bool)
  (a b : coord) (r : list coord) : list coord :=
  close
    (flat_map
       (fun e =>
          let '(p, q) := e in
          match inside a b p, inside a b q with
          | true, true => [q]
          | true, false => [meet a b p q]
          | false, true => [meet a b p q; q]
          | false, false => []
          end)
       (edges r)).

Inductive shape : Type :=
| Empty
| Point (p : coord)
| LineString (l : list coord)
| APolygon (r : list coord).

Fixpoint dedup (r : list coord) : list coord :=
  match r with
  | a :: (b :: _) as r' => if coord_eqb a b then dedup r' else a :: dedup r'
  | _ => r
  end.

Definition classify (r : list coord) : shape :=
  match vertices (dedup r) with
  | [] => Empty
  | [p] => Point p
  | [p; q] => LineString [p; q]
  | _ => if Qeq_bool (area2 r) 0 then LineString (vertices (dedup r))
         else APolygon (close (dedup r))
  end.

Definition clip (query stored : list coord) : shape :=
  let inside :=
    if Qle_bool 0 (area2 query)
    then fun a b p => Qle_bool 0 (cross a b p)
    else fun a b p => Qle_bool (cross a b p) 0 in
  classify
    (fold_left (fun r e => clip_edge inside (fst e) (snd e) r) (edges query) stored).

#[global] Instance kernel : geometry.Kernel := {|
  geometry.polygon_t := list coord;
  geometry.geom := shape;
  geometry.Polygon := make;
  geometry.bounds := ring_bounds;
  geometry.almost_equals := equals_exact;
  geometry.intersects_Point := contains_point;
  geometry.intersection := fun q s => Ok (clip q s);
  geometry.is_empty := fun g => match g with Empty => true | _ => false end;
  geometry.as_Polygon := fun g => match g with APolygon r => Some r | _ => None end;
  geometry.exterior_coords := fun r => r
|}.

(** A stand-in for the digest: an injective numbering of strings by
    integers too large for the tree, as 128-bit digests are. *)
Definition numbering (s : string) : Z := (2 ^ 127 + Z.pos (encode s))%Z.

(** Queries walk the entries in insertion order. *)
Definition in_order (t : index.Index) : index.Index := t.

End planar.

(** The planar kernel with the empty ring left without a box, as the
    empty polygon is: what stands for its box fails the check of the
    tree. *)
Definition boxless : BBox := {| minx := 1; miny := 1; maxx := 0; maxy := 0 |}.

Definition planar_boxless : geometry.Kernel := {|
  geometry.polygon_t := list coord;
  geometry.geom := planar.shape;
  geometry.Polygon := planar.make;
  geometry.bounds := fun r => match r with [] => boxless | _ => planar.ring_bounds r end;
  geometry.almost_equals := planar.equals_exact;
  geometry.intersects_Point := planar.contains_point;
  geometry.intersection := fun q s => Ok (planar.clip q s);
  geometry.is_empty := fun g => match g with planar.Empty => true | _ => false end;
  geometry.as_Polygon := fun g => match g with planar.APolygon r => Some r | _ => None end;
  geometry.exterior_coords := fun r => r
|}.

(** ** Example data *)

Definition square (x0 y0 x1 y1 : Q) : list coord :=
  [(x0, y0); (x0, y1); (x1, y1); (x1, y0)].

Definition record (k : string) (c : list coord) : data :=
  {| file := Some k; polygon := Some c; extra := ∅ |}.

Definition tagged (k : string) (c : list coord) (tag : string) : data :=
  {| file := Some k; polygon := Some c; extra := {[ "owner" := VStr tag ]} |}.


Definition record_A : data := record "A" (square 0 0 10 10).
Definition record_B : data := record "B" (square 20 20 30 30).

(** The index of the planar kernel after the given calls. *)
Definition index_of (ops : list op) : @Polygon_File_Index planar.kernel :=
  snd (run planar.numbering ops __init__).

Definition example_ops : list op :=
  [Insert record_A; Insert record_B;
   Update (record "A" (square 0 0 10 12));
   Insert (record "A" (square 1 1 2 2));
   Update record_B].

(** A square that differs from (0,0)-(10,10) by less than the tolerance. *)
Definition square_noise : list coord :=
  [(0, 0); (0, 10); (10, 10); (10, 1 # 10000000)].

Definition record_C : data := record "C" (square 5 5 20 20).

Definition entry_A : entry :=
  {| e_id := Some 7%Z;
     e_bbox := Some {| minx := 0; miny := 0; maxx := 10; maxy := 10 |};
     e_object := Some record_A |}.

Definition entry_C : entry :=
  {| e_id := Some 9%Z;
     e_bbox := Some {| minx := 5; miny := 5; maxx := 20; maxy := 20 |};
     e_object := Some record_C |}.

(** An entry with a sound payload and no identifier. *)
Definition entry_no_id : entry :=
  {| e_id := None;
     e_bbox := Some {| minx := 20; miny := 20; maxx := 30; maxy := 30 |};
     e_object := Some record_B |}.

Definition example_files : files :=
  {[ "index.json" := [entry_C; entry_no_id; entry_A];
     "first.json" := [entry_C];
     "second.json" := [entry_no_id; entry_A] ]}.

(** Calls of all three kinds, two of which raise. *)
Definition example_calls : list call :=
  [Call_insert record_A;
   Call_insert {| file := None; polygon := None; extra := ∅ |};
   Call_load example_files "index.json";
   Call_update (record "A" (square 0 0 10 12))].

(** * Properties *)

(** ** The tree *)

Lemma qmin_le_l a b : qmin a b <= a.
Proof.
  unfold qmin. destruct (Qle_bool a b) eqn:E; [lra|].
  apply Qnot_lt_le. intros H. apply Qlt_le_weak, Qle_bool_iff in H. congruence.
Qed.

Lemma qmin_le_r a b : qmin a b <= b.
Proof.
  unfold qmin. destruct (Qle_bool a b) eqn:E; [by apply Qle_bool_iff|lra].
Qed.

Lemma qmax_ge_l a b : a <= qmax a b.
Proof.
  unfold qmax. destruct (Qle_bool a b) eqn:E; [by apply Qle_bool_iff|lra].
Qed.

Lemma qmax_ge_r a b : b <= qmax a b.
Proof.
  unfold qmax. destruct (Qle_bool a b) eqn:E; [lra|].
  apply Qnot_lt_le. intros H. apply Qlt_le_weak, Qle_bool_iff in H. congruence.
Qed.

Lemma valid_spec b :
  index.valid b = true <-> minx b <= maxx b /\ miny b <= maxy b.
Proof.
  unfold index.valid. rewrite andb_true_iff, !Qle_bool_iff. tauto.
Qed.

Lemma overlaps_spec q b :
  index.overlaps q b = true <->
  minx q <= maxx b /\ minx b <= maxx q /\ miny q <= maxy b /\ miny b <= maxy q.
Proof.
  unfold index.overlaps. rewrite !andb_true_iff, !Qle_bool_iff. tauto.
Qed.

Lemma bbox_eqb_refl b : index.bbox_eqb b b = true.
Proof.
  unfold index.bbox_eqb. rewrite !andb_true_iff, !Qeq_bool_iff. repeat split; reflexivity.
Qed.

(** The box of the root covers what it started from and every entry. *)
Lemma fold_extend_covers t b :
  let r := fold_left index.extend t b in
  (minx r <= minx b /\ miny r <= miny b /\ maxx b <= maxx r /\ maxy b <= maxy r) /\
  Forall (fun it =>
            minx r <= minx (index.bbox it) /\ miny r <= miny (index.bbox it) /\
            maxx (index.bbox it) <= maxx r /\ maxy (index.bbox it) <= maxy r) t.
Proof.
  revert b. induction t as [|it t IH]; intros b; simpl.
  - split; [lra | constructor].
  - destruct (IH (index.extend b it)) as [(H1 & H2 & H3 & H4) HF].
    pose proof (qmin_le_l (minx b) (minx (index.bbox it))).
    pose proof (qmin_le_r (minx b) (minx (index.bbox it))).
    pose proof (qmin_le_l (miny b) (miny (index.bbox it))).
    pose proof (qmin_le_r (miny b) (miny (index.bbox it))).
    pose proof (qmax_ge_l (maxx b) (maxx (index.bbox it))).
    pose proof (qmax_ge_r (maxx b) (maxx (index.bbox it))).
    pose proof (qmax_ge_l (maxy b) (maxy (index.bbox it))).
    pose proof (qmax_ge_r (maxy b) (maxy (index.bbox it))).
    simpl in *. split; [lra|]. constructor; [lra | exact HF].
Qed.

Lemma filter_all {A} (f : A -> bool) (l : list A) :
  Forall (fun x => f x = true) l -> List.filter f l = l.
Proof.
  induction 1 as [|x l Hx _ IH]; simpl; [done|]. by rewrite Hx, IH.
Qed.

(** Every entry of a tree of valid boxes overlaps the box of the root. *)
Lemma overlaps_bounds t :
  index.all_valid t ->
  Forall (fun it => index.overlaps (index.bounds t) (index.bbox it) = true) t.
Proof.
  intros Hv. unfold index.bounds.
  destruct (fold_extend_covers t
    {| minx := index.DBL_MAX; miny := index.DBL_MAX;
       maxx := - index.DBL_MAX; maxy := - index.DBL_MAX |}) as [_ HF].
  revert HF. generalize (fold_left index.extend t
    {| minx := index.DBL_MAX; miny := index.DBL_MAX;
       maxx := - index.DBL_MAX; maxy := - index.DBL_MAX |}).
  intros r HF. unfold index.all_valid in Hv.
  rewrite Forall_forall in *. intros it Hit.
  specialize (HF it Hit). specialize (Hv it Hit).
  apply valid_spec in Hv. apply overlaps_spec. lra.
Qed.

Lemma bounds_valid t :
  index.all_valid t -> t <> [] -> index.valid (index.bounds t) = true.
Proof.
  intros Hv Hne. destruct t as [|it t]; [done|].
  destruct (fold_extend_covers (it :: t)
    {| minx := index.DBL_MAX; miny := index.DBL_MAX;
       maxx := - index.DBL_MAX; maxy := - index.DBL_MAX |}) as [_ HF].
  apply Forall_inv in HF. apply Forall_inv in Hv.
  apply valid_spec in Hv. apply valid_spec. unfold index.bounds. lra.
Qed.

Lemma bounds_empty_invalid : index.valid (index.bounds []) = false.
Proof. vm_compute. reflexivity. Qed.

(** [get_size] counts the entries. *)
Lemma get_size_length t : index.all_valid t -> index.get_size t = length t.
Proof.
  intros Hv. unfold index.get_size, index.count, index.get_coordinate_pointers.
  destruct t as [|it t].
  - by rewrite bounds_empty_invalid.
  - rewrite bounds_valid by done.
    by rewrite (filter_all _ _ (overlaps_bounds _ Hv)).
Qed.

(** An identifier of the tree's range is kept as it is. *)
Lemma c_int64_idem z : index.c_int64 (index.c_int64 z) = index.c_int64 z.
Proof.
  unfold index.c_int64. rewrite Z.sub_add. by rewrite Z.mod_mod by done.
Qed.

Lemma c_int64_range z : (- 2 ^ 63 <= index.c_int64 z < 2 ^ 63)%Z.
Proof.
  unfold index.c_int64.
  pose proof (Z.mod_pos_bound (z + 2 ^ 63) (2 ^ 64) eq_refl). lia.
Qed.

Lemma c_int64_small z : (- 2 ^ 63 <= z < 2 ^ 63)%Z -> index.c_int64 z = z.
Proof.
  intros H. unfold index.c_int64. rewrite Z.mod_small; lia.
Qed.

(** ** The mutation protocol *)

Section mutation.

Context {K : geometry.Kernel}.
Variable hash_string : string -> Z.

Lemma check_data_ok d :
  _check_data d = Ok tt <-> exists k c, file d = Some k /\ polygon d = Some c.
Proof.
  unfold _check_data. destruct (file d), (polygon d); split; intros H;
    try done; try (by eauto); by destruct H as (? & ? & ? & ?).
Qed.

Lemma check_data_raise d e :
  _check_data d = Raise e ->
  (file d = None \/ polygon d = None) /\ exists msg, e = RuntimeError msg.
Proof.
  unfold _check_data. destruct (file d), (polygon d); intros [= <-]; eauto.
Qed.

Lemma insert_malformed d e self :
  _check_data d = Raise e -> insert hash_string d self = (Raise e, self).
Proof. intros H. unfold insert, bind, lift. by rewrite H. Qed.

Lemma insert_present d k c self :
  file d = Some k -> polygon d = Some c -> is_Some (_polygons self !! k) ->
  insert hash_string d self = (Ok tt, self).
Proof.
  intros Hk Hc [pl Hpl].
  unfold insert, bind, lift, gets, ret, _check_data, getitem_file.
  by rewrite Hk, Hc, Hpl.
Qed.

Lemma insert_fresh d k c self :
  file d = Some k -> polygon d = Some c -> _polygons self !! k = None ->
  insert hash_string d self =
    match geometry.Polygon c with
    | Raise e => (Raise e, self)
    | Ok pl =>
        if index.valid (geometry.bounds pl)
        then (Ok tt, inserted hash_string k pl d self)
        else (Raise (RTreeError "Coordinates must not have minimums more than maximums"),
              set_polygons <[k := pl]> self)
    end.
Proof.
  intros Hk Hc Hpl.
  unfold insert, bind, lift, gets, ret, modify, rtree_call,
    _check_data, getitem_file, getitem_polygon, index.insert,
    index.get_coordinate_pointers.
  rewrite Hk, Hc, Hpl. simpl.
  destruct (geometry.Polygon c) as [pl|e]; [|done]. simpl.
  by destruct (index.valid _).
Qed.

(** What a successful [insert] did. *)
Lemma insert_ok_inv d self self' :
  insert hash_string d self = (Ok tt, self') ->
  exists k c, file d = Some k /\ polygon d = Some c /\
    (is_Some (_polygons self !! k) /\ self' = self \/
     _polygons self !! k = None /\
     exists pl, geometry.Polygon c = Ok pl /\
       index.valid (geometry.bounds pl) = true /\
       self' = inserted hash_string k pl d self).
Proof.
  intros H. destruct (_check_data d) as [[]|e] eqn:Hchk.
  - apply check_data_ok in Hchk as (k & c & Hk & Hc). exists k, c.
    split; [done|]. split; [done|].
    destruct (_polygons self !! k) as [pl|] eqn:Hpl.
    + left. rewrite (insert_present d k c) in H by eauto.
      split; [eauto | congruence].
    + right. rewrite (insert_fresh d k c) in H by done.
      destruct (geometry.Polygon c) as [pl|e]; [|done].
      destruct (index.valid _) eqn:Hv; [|done]. split; [done|].
      exists pl. split; [done|]. split; [done|]. congruence.
  - by rewrite (insert_malformed d e) in H.
Qed.

Lemma update_malformed d e self :
  _check_data d = Raise e -> update hash_string d self = (Raise e, self).
Proof. intros H. unfold update, bind, lift. by rewrite H. Qed.

Lemma update_new d k c self :
  file d = Some k -> polygon d = Some c -> _polygons self !! k = None ->
  update hash_string d self =
    match insert hash_string d self with
    | (Ok _, self') => (Ok true, self')
    | (Raise e, self') => (Raise e, self')
    end.
Proof.
  intros Hk Hc Hpl.
  unfold update, bind, lift, gets, ret, _check_data, getitem_file.
  rewrite Hk, Hc, Hpl. simpl. by destruct (insert hash_string d self) as [[]].
Qed.

Lemma update_no_ring d k c pl e self :
  file d = Some k -> polygon d = Some c -> _polygons self !! k = Some pl ->
  geometry.Polygon c = Raise e ->
  update hash_string d self = (Raise e, self).
Proof.
  intros Hk Hc Hpl Hr.
  unfold update, bind, lift, gets, ret, _check_data, getitem_file,
    getitem_polygon.
  by rewrite Hk, Hc, Hpl, Hr.
Qed.

Lemma update_unchanged d k c pl npl self :
  file d = Some k -> polygon d = Some c -> _polygons self !! k = Some pl ->
  geometry.Polygon c = Ok npl ->
  geometry.almost_equals pl npl = true ->
  update hash_string d self = (Ok false, self).
Proof.
  intros Hk Hc Hpl Hr Heq.
  unfold update, bind, lift, gets, ret, _check_data, getitem_file,
    getitem_polygon.
  by rewrite Hk, Hc, Hpl, Hr, Heq.
Qed.

Lemma update_changed d k c pl npl self :
  file d = Some k -> polygon d = Some c -> _polygons self !! k = Some pl ->
  geometry.Polygon c = Ok npl ->
  geometry.almost_equals pl npl = false ->
  index.valid (geometry.bounds pl) = true ->
  update hash_string d self =
    match insert hash_string d (removed hash_string k pl self) with
    | (Ok _, self') => (Ok true, self')
    | (Raise e, self') => (Raise e, self')
    end.
Proof.
  intros Hk Hc Hpl Hr Hne Hv.
  unfold update, bind, lift, gets, ret, modify, rtree_call,
    _check_data, getitem_file, getitem_polygon, index.delete,
    index.get_coordinate_pointers.
  rewrite Hk, Hc, Hpl. simpl. rewrite Hr, Hne, Hv. simpl.
  unfold removed, set_polygons. simpl.
  by destruct (insert hash_string d _) as [[]].
Qed.

(** [update] that finds the old box rejected leaves the index as it was. *)
Lemma update_old_box d k c pl npl self :
  file d = Some k -> polygon d = Some c -> _polygons self !! k = Some pl ->
  geometry.Polygon c = Ok npl ->
  geometry.almost_equals pl npl = false ->
  index.valid (geometry.bounds pl) = false ->
  update hash_string d self =
    (Raise (RTreeError "Coordinates must not have minimums more than maximums"), self).
Proof.
  intros Hk Hc Hpl Hr Hne Hv.
  unfold update, bind, lift, gets, ret, modify, rtree_call,
    _check_data, getitem_file, getitem_polygon, index.delete,
    index.get_coordinate_pointers.
  rewrite Hk, Hc, Hpl. simpl. by rewrite Hr, Hne, Hv.
Qed.

End mutation.

(** ** Consistency is kept by the mutations *)

Section consistency.

Context {K : geometry.Kernel}.
Variable hash_string : string -> Z.

Lemma consistent_valid self :
  consistent hash_string self -> index.all_valid (_rtree self).
Proof.
  intros [HF _ _ _]. unfold index.all_valid.
  eapply Forall_impl; [exact HF|]. by intros it (k & c & pl & _ & _ & _ & _ & _ & _ & Hv).
Qed.

Lemma consistent_size self :
  consistent hash_string self -> size self = base.size (_polygons self).
Proof.
  intros H. unfold size. rewrite get_size_length by by eapply consistent_valid.
  by destruct H.
Qed.

Lemma consistent_init : consistent hash_string __init__.
Proof.
  split; simpl.
  - constructor.
  - intros k [pl Hpl]. by rewrite lookup_empty in Hpl.
  - constructor.
  - by rewrite map_size_empty.
Qed.

(** The keys of the tree are registered. *)
Lemma indexed_registered self it :
  indexed hash_string self it ->
  exists k, item_key it = Some k /\ is_Some (_polygons self !! k).
Proof. intros (k & c & pl & Hk & _ & _ & Hpl & _). exists k. split; [done|eauto]. Qed.

Lemma consistent_inserted self d k c pl :
  consistent hash_string self ->
  file d = Some k -> polygon d = Some c -> _polygons self !! k = None ->
  geometry.Polygon c = Ok pl ->
  index.valid (geometry.bounds pl) = true ->
  consistent hash_string (inserted hash_string k pl d self).
Proof.
  intros [HF HR HN HC] Hk Hc Hpl Hr Hv.
  assert (Hfresh : Some k ∉ item_key <$> _rtree self).
  { intros (it & Hit & Hin)%list_elem_of_fmap.
    rewrite Forall_forall in HF. destruct (indexed_registered _ _ (HF it Hin))
      as (k' & Hk' & [pl' Hpl']).
    rewrite Hk' in Hit. injection Hit as ->. congruence. }
  split; simpl.
  - apply Forall_app. split.
    + eapply Forall_impl; [exact HF|].
      intros it (k' & c' & pl' & Hk' & Hc' & Hr' & Hp' & Hrest).
      exists k', c', pl'. simpl. split; [done|]. split; [done|]. split; [done|].
      split; [|done].
      rewrite lookup_insert_ne; [done|]. intros ->. congruence.
    + constructor; [|constructor]. exists k, c, pl. simpl.
      by rewrite lookup_insert_eq.
  - intros k' [pl' Hpl']. destruct (decide (k = k')) as [<-|Hne].
    + exists (index.mk_item (node_id hash_string k) (geometry.bounds pl) d).
      split; [|done]. apply elem_of_app. right. apply list_elem_of_singleton. done.
    + rewrite lookup_insert_ne in Hpl' by done.
      destruct (HR k') as (it & Hin & Hit); [eauto|].
      exists it. split; [|done]. apply elem_of_app. by left.
  - rewrite fmap_app. apply NoDup_app. split; [done|]. split.
    + intros x Hx Hx'. apply list_elem_of_singleton in Hx'. subst x.
      apply Hfresh. by rewrite <- Hk.
    + simpl. apply NoDup_singleton.
  - rewrite length_app. simpl. rewrite map_size_insert_None by done. lia.
Qed.

(** [delete] with the identifier of a registered key and the box of its
    polygon takes out the entry of that key and no other. *)
Lemma remove_entry_of_key self k pl t :
  Forall (indexed hash_string self) t ->
  _polygons self !! k = Some pl ->
  (forall k', is_Some (_polygons self !! k') ->
              node_id hash_string k' = node_id hash_string k -> k' = k) ->
  (exists it, it ∈ t /\ item_key it = Some k) ->
  exists l1 it l2,
    t = l1 ++ it :: l2 /\ item_key it = Some k /\
    index.remove_entry (node_id hash_string k) (geometry.bounds pl) t = l1 ++ l2.
Proof.
  intros HF Hpl Hcoll. induction HF as [|it0 t Hit0 HF IH]; intros (it & Hin & Hit).
  - by apply elem_of_nil in Hin.
  - destruct Hit0 as (k0 & c0 & pl0 & Hk0 & Hc0 & Hr0 & Hp0 & Hid & Hbb & Hv). simpl.
    destruct (decide (k0 = k)) as [->|Hne].
    + exists [], it0, t. rewrite Hp0 in Hpl. injection Hpl as <-.
      rewrite Hid, Hbb, Z.eqb_refl, bbox_eqb_refl. done.
    + assert (Hh : node_id hash_string k0 <> node_id hash_string k)
        by (intros E; apply Hne, Hcoll; eauto).
      rewrite Hid. apply Z.eqb_neq in Hh. rewrite Hh. simpl.
      apply elem_of_cons in Hin as [->|Hin].
      { unfold item_key in Hit. congruence. }
      destruct IH as (l1 & it' & l2 & -> & Hk' & Hrem); [eauto|].
      exists (it0 :: l1), it', l2. by rewrite Hrem.
Qed.

Lemma consistent_removed self k pl :
  consistent hash_string self ->
  _polygons self !! k = Some pl ->
  (forall k', is_Some (_polygons self !! k') ->
              node_id hash_string k' = node_id hash_string k -> k' = k) ->
  consistent hash_string (removed hash_string k pl self) /\
  length (_rtree (removed hash_string k pl self)) = pred (length (_rtree self)).
Proof.
  intros [HF HR HN HC] Hpl Hcoll.
  destruct (remove_entry_of_key self k pl (_rtree self)) as (l1 & it & l2 & Ht & Hit & Hrem);
    [done | done | done | apply HR; eauto |].
  unfold removed. rewrite Hrem. rewrite Ht in HF, HN, HC, HR.
  rewrite fmap_app, fmap_cons, Hit in HN.
  apply NoDup_app in HN as (HN1 & HN12 & HN2).
  apply NoDup_cons in HN2 as [HN2 HN3].
  assert (Hother : forall it', it' ∈ l1 ++ l2 -> item_key it' <> Some k).
  { intros it' [Hin|Hin]%elem_of_app E.
    - apply (HN12 (Some k)); [|left]. rewrite <- E. by apply list_elem_of_fmap_2.
    - apply HN2. rewrite <- E. by apply list_elem_of_fmap_2. }
  split; [split; simpl|].
  - apply Forall_app in HF as [HF1 HF2]. apply Forall_cons in HF2 as [_ HF2].
    assert (HF' : Forall (indexed hash_string self) (l1 ++ l2)) by by apply Forall_app.
    rewrite Forall_forall in HF'. apply Forall_forall. intros it' Hin.
    destruct (HF' it' Hin) as (k' & c' & pl' & Hk' & Hc' & Hr' & Hp' & Hrest).
    exists k', c', pl'. simpl. split; [done|]. split; [done|]. split; [done|].
    split; [|done].
    rewrite lookup_delete_ne; [done|]. intros ->. by apply (Hother it' Hin).
  - intros k' [pl' Hpl']. destruct (decide (k = k')) as [<-|Hne].
    { by rewrite lookup_delete_eq in Hpl'. }
    rewrite lookup_delete_ne in Hpl' by done.
    destruct (HR k') as (it' & Hin & Hit'); [eauto|].
    exists it'. split; [|done].
    apply elem_of_app in Hin as [Hin|Hin]; [apply elem_of_app; by left|].
    apply elem_of_cons in Hin as [->|Hin]; [congruence|]. apply elem_of_app. by right.
  - rewrite fmap_app. apply NoDup_app. split; [done|]. split; [|done].
    intros x Hx Hx'. apply (HN12 x Hx). by right.
  - rewrite map_size_delete_Some by eauto. rewrite length_app.
    rewrite length_app in HC. simpl in HC. rewrite <- HC. lia.
  - simpl. rewrite Ht, !length_app. simpl. lia.
Qed.

End consistency.

Section runs.

Context {K : geometry.Kernel}.
Variable hash_string : string -> Z.

(** What a successful [update] did. *)
Lemma update_ok_inv d self b self' :
  update hash_string d self = (Ok b, self') ->
  exists k c npl, file d = Some k /\ polygon d = Some c /\
    geometry.Polygon c = Ok npl /\
    (_polygons self !! k = None /\ b = true /\
     index.valid (geometry.bounds npl) = true /\
     self' = inserted hash_string k npl d self
     \/
     exists pl, _polygons self !! k = Some pl /\
       (geometry.almost_equals pl npl = true /\ b = false /\ self' = self
        \/
        geometry.almost_equals pl npl = false /\ b = true /\
        index.valid (geometry.bounds pl) = true /\
        index.valid (geometry.bounds npl) = true /\
        self' = inserted hash_string k npl d (removed hash_string k pl self))).
Proof.
  intros H. destruct (_check_data d) as [[]|e] eqn:Hchk;
    [|by rewrite (update_malformed _ d e) in H].
  apply check_data_ok in Hchk as (k & c & Hk & Hc). exists k, c.
  destruct (_polygons self !! k) as [pl|] eqn:Hpl.
  - destruct (geometry.Polygon c) as [npl|e] eqn:Hr;
      [|by rewrite (update_no_ring _ d k c pl e) in H].
    exists npl. split; [done|]. split; [done|]. split; [done|].
    right. exists pl. split; [done|].
    destruct (geometry.almost_equals pl npl) eqn:Heq.
    + left. rewrite (update_unchanged _ d k c pl npl) in H by done.
      injection H as <- <-. done.
    + right. destruct (index.valid (geometry.bounds pl)) eqn:Hv.
      * rewrite (update_changed _ d k c pl npl) in H by done.
        rewrite (insert_fresh _ d k c) in H by (done || apply lookup_delete_eq).
        rewrite Hr in H.
        destruct (index.valid (geometry.bounds npl)); [|done].
        injection H as <- <-. done.
      * by rewrite (update_old_box _ d k c pl npl) in H.
  - rewrite (update_new _ d k c) in H by done.
    rewrite (insert_fresh _ d k c) in H by done.
    destruct (geometry.Polygon c) as [npl|e] eqn:Hr; [|done].
    exists npl. split; [done|]. split; [done|]. split; [done|]. left.
    destruct (index.valid (geometry.bounds npl)); [|done].
    injection H as <- <-. done.
Qed.

Lemma dom_inserted k pl d (self : Polygon_File_Index) :
  dom (_polygons (inserted hash_string k pl d self)) = {[k]} ∪ dom (_polygons self).
Proof. simpl. apply dom_insert_L. Qed.

(** A successful operation keeps the index consistent and registers its
    key. *)
Lemma step_consistent o self self' :
  consistent hash_string self ->
  step hash_string o self = (Ok tt, self') ->
  (forall k k', file (op_data o) = Some k -> is_Some (_polygons self !! k') ->
                node_id hash_string k' = node_id hash_string k -> k' = k) ->
  consistent hash_string self' /\
  exists k, file (op_data o) = Some k /\
            dom (_polygons self') = {[k]} ∪ dom (_polygons self).
Proof.
  intros Hcons Hstep Hcoll. destruct o as [d|d]; simpl in *.
  - apply insert_ok_inv in Hstep
      as (k & c & Hk & Hc & [[Hin ->]|(Hnew & pl & Hr & Hv & ->)]).
    + split; [done|]. exists k. split; [done|].
      apply elem_of_dom in Hin. symmetry.
      by apply subseteq_union_1_L, singleton_subseteq_l.
    + split; [by eapply consistent_inserted|]. exists k. split; [done|].
      apply dom_inserted.
  - unfold bind, ret in Hstep.
    destruct (update hash_string d self) as [[b|e] s] eqn:Hupd; [|done].
    injection Hstep as <-.
    apply update_ok_inv in Hupd
      as (k & c & npl & Hk & Hc & Hr &
          [(Hnew & _ & Hv & ->)|(pl & Hpl & [(_ & _ & ->)|(_ & _ & Hvo & Hv & ->)])]).
    + split; [by eapply consistent_inserted|]. exists k. split; [done|].
      apply dom_inserted.
    + split; [done|]. exists k. split; [done|].
      assert (k ∈ dom (_polygons self)) by (apply elem_of_dom; eauto). symmetry.
      by apply subseteq_union_1_L, singleton_subseteq_l.
    + destruct (consistent_removed hash_string self k pl) as [Hrem _]; [done|done|eauto|].
      split.
      * eapply consistent_inserted; [done|done|done|apply lookup_delete_eq|done|done].
      * exists k. split; [done|]. rewrite dom_inserted. simpl. rewrite dom_delete_L.
        assert (Hsub : {[k]} ⊆ dom (_polygons self)).
        { apply singleton_subseteq_l, elem_of_dom. eauto. }
        rewrite <- (union_difference_L _ _ Hsub). symmetry.
        by apply subseteq_union_1_L.
Qed.

Lemma run_consistent ops self self' :
  consistent hash_string self ->
  run hash_string ops self = (Ok tt, self') ->
  (forall k1 k2,
      k1 ∈ keys ops \/ is_Some (_polygons self !! k1) ->
      k2 ∈ keys ops \/ is_Some (_polygons self !! k2) ->
      node_id hash_string k1 = node_id hash_string k2 -> k1 = k2) ->
  consistent hash_string self' /\
  dom (_polygons self') = list_to_set (keys ops) ∪ dom (_polygons self).
Proof.
  revert self. induction ops as [|o ops IH]; intros self Hcons Hrun Hcoll.
  - injection Hrun as <-. split; [done|]. simpl. by rewrite (left_id_L ∅ (∪)).
  - unfold run in Hrun. simpl in Hrun. unfold bind in Hrun at 1.
    destruct (step hash_string o self) as [[[]|e] s] eqn:Hstep; [|done].
    destruct (step_consistent o self s Hcons Hstep) as (Hs & k & Hk & Hdom).
    { intros k k' Hk Hk' E. apply Hcoll; [by right| |done].
      left. unfold keys. simpl. rewrite Hk. by left. }
    destruct (IH s Hs Hrun) as [Hfin Hd].
    { assert (Hreg : forall x, x ∈ keys ops \/ is_Some (_polygons s !! x) ->
                x ∈ keys (o :: ops) \/ is_Some (_polygons self !! x)).
      { intros x [Hx|Hx].
        - left. unfold keys. simpl. destruct (file (op_data o)); [by right|done].
        - apply elem_of_dom in Hx. rewrite Hdom in Hx.
          apply elem_of_union in Hx as [->%elem_of_singleton|Hx].
          + left. unfold keys. simpl. rewrite Hk. by left.
          + right. by apply elem_of_dom. }
      intros k1 k2 H1 H2. apply Hcoll; by apply Hreg. }
    split; [done|]. rewrite Hd, Hdom. unfold keys. simpl. rewrite Hk. simpl.
    by rewrite (assoc_L (∪)), (comm_L (∪) _ {[k]}).
Qed.

(** The states reached from a fresh index are consistent. *)
Lemma reachable_consistent ops st :
  collision_free hash_string (keys ops) ->
  run hash_string ops __init__ = (Ok tt, st) ->
  consistent hash_string st /\ dom (_polygons st) = list_to_set (keys ops).
Proof.
  intros Hcoll Hrun.
  destruct (run_consistent ops __init__ st) as [Hc Hd];
    [apply consistent_init | done | |].
  - intros k1 k2 H1 H2. simpl in H1, H2.
    destruct H1 as [H1|[? H1]]; [|by rewrite lookup_empty in H1].
    destruct H2 as [H2|[? H2]]; [|by rewrite lookup_empty in H2].
    by apply Hcoll.
  - split; [done|]. rewrite Hd. simpl. by rewrite dom_empty_L, (right_id_L ∅ (∪)).
Qed.

(** A consistent index holds the same keys with the same polygons in the
    registry and in the tree. *)
Lemma consistent_agree st k pl :
  consistent hash_string st ->
  _polygons st !! k = Some pl <->
  exists it c, it ∈ _rtree st /\ item_key it = Some k /\
               polygon (index.object it) = Some c /\ geometry.Polygon c = Ok pl.
Proof.
  intros [HF HR _ _]. rewrite Forall_forall in HF. split.
  - intros Hpl. destruct (HR k) as (it & Hin & Hit); [eauto|].
    destruct (HF it Hin) as (k' & c & pl' & Hk' & Hc & Hr & Hp & _).
    unfold item_key in Hit. rewrite Hk' in Hit. injection Hit as ->.
    exists it, c. rewrite Hp in Hpl. injection Hpl as <-. done.
  - intros (it & c & Hin & Hit & Hc & Hr).
    destruct (HF it Hin) as (k' & c' & pl' & Hk' & Hc' & Hr' & Hp & _).
    unfold item_key in Hit. congruence.
Qed.

(** C1. After any sequence of successful [insert] and [update] calls on
    a fresh index (no two of whose keys share an identifier in the tree),
    the registry and the tree hold the same keys with the same polygons,
    one tree entry per key, and [size] is the number of distinct keys of
    the calls. *)
Theorem registry_and_tree_agree ops st :
  collision_free hash_string (keys ops) ->
  run hash_string ops __init__ = (Ok tt, st) ->
  (forall k pl,
      _polygons st !! k = Some pl <->
      exists it c, it ∈ _rtree st /\ item_key it = Some k /\
                   polygon (index.object it) = Some c /\ geometry.Polygon c = Ok pl) /\
  NoDup (item_key <$> _rtree st) /\
  size st = base.size (list_to_set (keys ops) : gset string).
Proof.
  intros Hcoll Hrun.
  destruct (reachable_consistent ops st Hcoll Hrun) as [Hc Hd].
  split; [intros k pl; by apply consistent_agree|].
  split; [by destruct Hc|].
  rewrite (consistent_size hash_string st Hc), <- Hd. symmetry. apply size_dom.
Qed.

End runs.

Section mutation_contract.

Context {K : geometry.Kernel}.
Variable hash_string : string -> Z.

(** C7. A record without the ['file'] or the ['polygon'] field makes both
    [insert] and [update] raise the [RuntimeError] of [_check_data], and
    the index is left exactly as it was. *)
Theorem malformed_record_rejected (d : data) (self : Polygon_File_Index) :
  file d = None \/ polygon d = None ->
  exists msg,
    insert hash_string d self = (Raise (RuntimeError msg), self) /\
    update hash_string d self = (Raise (RuntimeError msg), self).
Proof.
  intros Hmiss.
  assert (exists msg, _check_data d = Raise (RuntimeError msg)) as [msg Hchk].
  { unfold _check_data. destruct (file d), (polygon d), Hmiss; try done; eauto. }
  exists msg. split.
  - by apply insert_malformed.
  - by apply update_malformed.
Qed.

(** C3. [insert] of a record whose key is registered changes nothing,
    whatever its polygon; so of two inserts with one key the first one
    decides the stored polygon. *)
Theorem insert_first_write_wins (d1 d2 : data) k c1 c2 (self : Polygon_File_Index) :
  file d1 = Some k -> polygon d1 = Some c1 ->
  file d2 = Some k -> polygon d2 = Some c2 ->
  (is_Some (_polygons self !! k) -> insert hash_string d2 self = (Ok tt, self)) /\
  (_polygons self !! k = None ->
   forall pl1, geometry.Polygon c1 = Ok pl1 ->
   index.valid (geometry.bounds pl1) = true ->
   exists self1,
     insert hash_string d1 self = (Ok tt, self1) /\
     insert hash_string d2 self1 = (Ok tt, self1) /\
     _polygons self1 !! k = Some pl1 /\
     index.object <$> _rtree self1 = (index.object <$> _rtree self) ++ [d1]).
Proof.
  intros Hk1 Hc1 Hk2 Hc2. split.
  - intros Hin. by apply (insert_present _ d2 k c2).
  - intros Hnew pl1 Hr Hv. exists (inserted hash_string k pl1 d1 self).
    assert (Hreg : _polygons (inserted hash_string k pl1 d1 self) !! k
                   = Some pl1) by apply lookup_insert_eq.
    split; [|split; [|split]].
    + rewrite (insert_fresh _ d1 k c1) by done. by rewrite Hr, Hv.
    + apply (insert_present _ d2 k c2); eauto.
    + done.
    + simpl. by rewrite fmap_app.
Qed.

(** C10. When the key is registered and the new polygon is approximately
    equal to the registered one, [update] answers [false] and leaves the
    index as it was: the payloads in the tree are the old ones, whatever
    other fields the new record carries. *)
Theorem update_discards_metadata (d : data) k c pl npl (self : Polygon_File_Index) :
  file d = Some k -> polygon d = Some c ->
  _polygons self !! k = Some pl ->
  geometry.Polygon c = Ok npl ->
  geometry.almost_equals pl npl = true ->
  update hash_string d self = (Ok false, self) /\
  index.object <$> _rtree (snd (update hash_string d self))
  = index.object <$> _rtree self.
Proof.
  intros Hk Hc Hpl Hr Heq.
  by rewrite (update_unchanged _ d k c pl npl).
Qed.


End mutation_contract.

(** ** Persistence *)

Section persistence.

Context {K : geometry.Kernel}.
Variable hash_string : string -> Z.
Variable traverse : index.Index -> index.Index.

Lemma load_body_skip (x : entry) (self : Polygon_File_Index) :
  (forall o, e_object x = Some o -> file o = None \/ polygon o = None) ->
  load_body x self = (Ok tt, self).
Proof.
  intros Hbad.
  unfold load_body, bind, try_except, lift, ret, getitem_object, _check_data.
  destruct (e_object x) as [o|]; [|done].
  destruct (Hbad o eq_refl) as [E|E]; rewrite E; [done|]. by destruct (file o).
Qed.

Lemma load_body_accept (x : entry) i b o k c pl (self : Polygon_File_Index) :
  e_id x = Some i -> e_bbox x = Some b -> e_object x = Some o ->
  file o = Some k -> polygon o = Some c ->
  index.valid b = true ->
  geometry.Polygon c = Ok pl ->
  load_body x self = (Ok tt, appended i b o k pl self).
Proof.
  intros Hi Hb Ho Hk Hc Hv Hr.
  unfold load_body, bind, try_except, lift, ret, modify, rtree_call,
    getitem_object, getitem_id, getitem_bbox, getitem_polygon, getitem_file,
    _check_data, index.insert, index.get_coordinate_pointers.
  rewrite Ho, Hk, Hc, Hi, Hb. simpl. rewrite Hv. simpl. by rewrite ?Hc, ?Hr, ?Hk.
Qed.

(** When the kernel builds no polygon from the coordinates, the entry is
    in the tree already and stays there. *)
Lemma load_body_no_ring (x : entry) i b o k c e (self : Polygon_File_Index) :
  e_id x = Some i -> e_bbox x = Some b -> e_object x = Some o ->
  file o = Some k -> polygon o = Some c ->
  index.valid b = true ->
  geometry.Polygon c = Raise e ->
  load_body x self = (Raise e, entered i b o self).
Proof.
  intros Hi Hb Ho Hk Hc Hv Hr.
  unfold load_body, bind, try_except, lift, ret, modify, rtree_call,
    getitem_object, getitem_id, getitem_bbox, getitem_polygon, getitem_file,
    _check_data, index.insert, index.get_coordinate_pointers.
  rewrite Ho, Hk, Hc, Hi, Hb. simpl. rewrite Hv. simpl. by rewrite ?Hc, ?Hr.
Qed.




(** C9. [load] of an entry whose key is already registered still appends
    the entry to the tree and only overwrites the registered polygon; in a
    consistent index the tree then holds one entry more than the registry
    holds keys, and [size] exceeds the number of keys. *)
Theorem load_duplicates_key (fs : files) (fn : string) (x : entry) i b o k c pl'
  (self : Polygon_File_Index) :
  fs !! fn = Some [x] ->
  e_id x = Some i -> e_bbox x = Some b -> e_object x = Some o ->
  file o = Some k -> polygon o = Some c -> index.valid b = true ->
  geometry.Polygon c = Ok pl' ->
  is_Some (_polygons self !! k) ->
  consistent hash_string self ->
  exists self',
    load fs fn self = (Ok tt, self') /\
    _rtree self' = _rtree self ++ [index.mk_item (index.c_int64 i) b o] /\
    _polygons self' = <[k := pl']> (_polygons self) /\
    length (_rtree self') = S (base.size (_polygons self')) /\
    size self' = S (base.size (dom (_polygons self'))).
Proof.
  intros Hfn Hi Hb Ho Hk Hc Hv Hr [pl Hpl] Hcons.
  exists (appended i b o k pl' self).
  assert (Hlen : length (_rtree (appended i b o k pl' self))
                 = S (base.size (_polygons (appended i b o k pl' self)))).
  { simpl. rewrite length_app. simpl.
    rewrite map_size_insert_Some by eauto.
    destruct Hcons as [_ _ _ HC]. lia. }
  split; [|split; [done|split; [done|split; [done|]]]].
  - unfold load. rewrite Hfn. simpl. unfold bind.
    by rewrite (load_body_accept x i b o k c pl').
  - rewrite size_dom, <- Hlen. unfold size. apply get_size_length.
    simpl. apply Forall_app. split; [by eapply consistent_valid|].
    constructor; [done|constructor].
Qed.

End persistence.

Section round_trip.

Context {K : geometry.Kernel}.
Variable hash_string : string -> Z.
Variable traverse : index.Index -> index.Index.
Hypothesis traverse_perm : forall t, traverse t ≡ₚ t.

(** [save] of an index with entries writes all of them, in the order of
    the traversal. *)
Lemma save_nonempty (self : Polygon_File_Index) fn (fs : files) :
  index.all_valid (_rtree self) -> _rtree self <> [] ->
  save traverse fn self fs = (Ok tt, <[fn := entry_of <$> traverse (_rtree self)]> fs).
Proof.
  intros Hv Hne.
  unfold save, bind, lift, modify, index.intersection, index.get_coordinate_pointers.
  rewrite bounds_valid by done. f_equal. f_equal. f_equal.
  apply filter_all. eapply Forall_forall. intros it Hit.
  pose proof (overlaps_bounds _ Hv) as HF. rewrite Forall_forall in HF.
  apply HF. by rewrite <- (traverse_perm (_rtree self)).
Qed.

(** Loading what was saved from entries of a consistent index appends
    them and registers their keys with the polygons that index has. *)
Lemma load_saved (self : Polygon_File_Index) items (self0 : Polygon_File_Index) :
  Forall (indexed hash_string self) items ->
  exists self1,
    for_ (entry_of <$> items) load_body self0 = (Ok tt, self1) /\
    _rtree self1 = _rtree self0 ++ items /\
    forall k, _polygons self1 !! k =
              if decide (Some k ∈ item_key <$> items)
              then _polygons self !! k else _polygons self0 !! k.
Proof.
  intros HF. revert self0. induction HF as [|it items Hit HF IH]; intros self0.
  - exists self0. split; [done|]. split; [by rewrite app_nil_r|].
    intros k. destruct (decide _) as [E|]; [|done]. by apply elem_of_nil in E.
  - destruct Hit as (k & c & pl & Hk & Hc & Hr & Hp & Hid & _ & Hv).
    destruct (IH (appended (index.id it) (index.bbox it) (index.object it) k pl self0))
      as (self1 & Hrun & Htree & Hreg).
    exists self1. split; [|split].
    + simpl. unfold bind at 1.
      by rewrite (load_body_accept _ (index.id it) (index.bbox it) (index.object it) k c pl).
    + rewrite Htree. simpl. rewrite <- app_assoc. rewrite Hid.
      unfold node_id. rewrite c_int64_idem. fold (node_id hash_string k).
      rewrite <- Hid. by destruct it.
    + intros k'. rewrite Hreg, fmap_cons. unfold appended. cbn [_polygons].
      assert (Hkey : item_key it = Some k) by exact Hk. rewrite Hkey.
      destruct (decide (k = k')) as [<-|Hne].
      * rewrite lookup_insert_eq, Hp.
        rewrite (decide_True (P := Some k ∈ Some k :: _)) by by left.
        by case_decide.
      * rewrite lookup_insert_ne by done.
        case_decide as E1; case_decide as E2; try done.
        -- exfalso. apply E2. by right.
        -- apply elem_of_cons in E2 as [E2|E2]; [congruence|done].
Qed.

(** X16. Round trip: a consistent index with at least one entry, saved
    and loaded into a fresh index, comes back with the same size, the same
    registry and the same entries. *)
Lemma save_load_round_trip (self : Polygon_File_Index) fn (fs : files) :
  consistent hash_string self -> _rtree self <> [] ->
  exists fs' self',
    save traverse fn self fs = (Ok tt, fs') /\
    load fs' fn __init__ = (Ok tt, self') /\
    size self' = size self /\
    _polygons self' = _polygons self /\
    _rtree self' ≡ₚ _rtree self.
Proof.
  intros Hcons Hne.
  pose proof (consistent_valid hash_string self Hcons) as Hv.
  assert (HF : Forall (indexed hash_string self) (traverse (_rtree self))).
  { destruct Hcons as [HF _ _ _].
    rewrite Forall_forall in *. intros it Hit. apply HF.
    by rewrite <- (traverse_perm (_rtree self)). }
  destruct (load_saved self (traverse (_rtree self)) __init__ HF)
    as (self' & Hrun & Htree & Hreg).
  exists (<[fn := entry_of <$> traverse (_rtree self)]> fs), self'.
  split; [by apply save_nonempty|]. split.
  { unfold load. by rewrite lookup_insert_eq. }
  simpl in Htree.
  assert (Hperm : _rtree self' ≡ₚ _rtree self) by (rewrite Htree; apply traverse_perm).
  split; [|split; [|done]].
  - unfold size. rewrite !get_size_length; [by rewrite Hperm|done|].
    unfold index.all_valid in *. by rewrite Hperm.
  - apply map_eq. intros k. rewrite Hreg. simpl. case_decide as E.
    + done.
    + rewrite lookup_empty. destruct (_polygons self !! k) as [pl|] eqn:Hpl; [|done].
      exfalso. apply E. destruct Hcons as [_ HR _ _].
      destruct (HR k) as (it & Hin & Hit); [eauto|].
      rewrite <- Hit. apply list_elem_of_fmap_2.
      by rewrite (traverse_perm (_rtree self)).
Qed.

(** [filter] asks the same query as [save], after checking the size. *)
Lemma filter_empty_index (how : data -> bool) (self : Polygon_File_Index) :
  _rtree self = [] -> filter hash_string traverse how self = Ok __init__.
Proof. intros Hempty. unfold filter. by rewrite Hempty. Qed.

(** C4. [save] of an index without entries raises: the box of the root
    of an empty tree is inverted, and [intersection] rejects it.  Nothing
    is written, so there is nothing to load back. *)
Theorem save_empty_index_raises (self : Polygon_File_Index) fn (fs : files) :
  _rtree self = [] ->
  size self = 0%nat /\
  exists msg, save traverse fn self fs = (Raise (RTreeError msg), fs).
Proof.
  intros Hempty. split.
  - unfold size. by rewrite Hempty.
  - eexists. unfold save, bind, lift, index.intersection, index.get_coordinate_pointers.
    rewrite Hempty, bounds_empty_invalid. reflexivity.
Qed.

End round_trip.

(** ** The query protocol *)

Section nearest.

Context {K : geometry.Kernel}.
Variable traverse : index.Index -> index.Index.

Lemma nearest_loop_sound (self : Polygon_File_Index) point cands d :
  d ∈ fst (nearest_loop self point cands) ->
  d ∈ cands /\ contains self point d.
Proof.
  induction cands as [|d0 cands IH]; simpl.
  - intros H. by apply elem_of_nil in H.
  - unfold getitem_file. destruct (file d0) as [k|] eqn:Hk;
      [|intros H; by apply elem_of_nil in H].
    destruct (_polygons self !! k) as [pl|] eqn:Hpl;
      [|intros H; by apply elem_of_nil in H].
    destruct (geometry.intersects_Point pl point) eqn:Hin; simpl.
    + intros [->|H]%elem_of_cons.
      * split; [by left|]. by exists k, pl.
      * destruct (IH H). split; [by right|done].
    + intros H. destruct (IH H). split; [by right|done].
Qed.

Lemma nearest_loop_complete (self : Polygon_File_Index) point cands d :
  snd (nearest_loop self point cands) = None ->
  d ∈ cands -> contains self point d ->
  d ∈ fst (nearest_loop self point cands).
Proof.
  induction cands as [|d0 cands IH]; simpl.
  - intros _ H. by apply elem_of_nil in H.
  - unfold getitem_file. destruct (file d0) as [k|] eqn:Hk; [|done].
    destruct (_polygons self !! k) as [pl|] eqn:Hpl; [|done].
    intros Hend Hd Hc.
    assert (Hend' : snd (nearest_loop self point cands) = None).
    { by destruct (geometry.intersects_Point pl point). }
    apply elem_of_cons in Hd as [->|Hd].
    + destruct Hc as (k' & pl' & Hk' & Hpl' & Hin).
      rewrite Hk in Hk'. injection Hk' as <-. rewrite Hpl in Hpl'. injection Hpl' as <-.
      rewrite Hin. simpl. by left.
    + specialize (IH Hend' Hd Hc).
      destruct (geometry.intersects_Point pl point); simpl; [by right|done].
Qed.

Lemma of_point_valid point : index.valid (index.of_point point) = true.
Proof. apply valid_spec. simpl. split; apply Qle_refl. Qed.

(** What [nearest] yields is among what the tree returns as nearest for
    one requested result, and is registered with a polygon meeting the
    point; when the generator ends without raising, it yields every such
    candidate. *)
Lemma nearest_candidates (self : Polygon_File_Index) point :
  exists cands,
    index.nearest_raw traverse (index.of_point point) 1 (_rtree self) = Ok cands /\
    (forall d, d ∈ fst (nearest traverse point self) ->
               d ∈ cands /\ contains self point d) /\
    (snd (nearest traverse point self) = None ->
     forall d, d ∈ cands -> contains self point d ->
               d ∈ fst (nearest traverse point self)).
Proof.
  unfold nearest.
  destruct (index.nearest_raw traverse (index.of_point point) 1 (_rtree self))
    as [cands|e] eqn:Hq.
  - exists cands. split; [done|]. split.
    + apply nearest_loop_sound.
    + intros Hend d. by apply nearest_loop_complete.
  - exfalso. revert Hq. unfold index.nearest_raw, index.get_coordinate_pointers.
    rewrite of_point_valid. by destruct (_ !! _).
Qed.

End nearest.

(** *** Candidates by box *)

Section nearest_by_box.

Context {K : geometry.Kernel}.
Variable hash_string : string -> Z.
Variable traverse : index.Index -> index.Index.
Hypothesis traverse_perm : forall t, traverse t ≡ₚ t.

(** The kernel finds a point only in polygons whose box holds it. *)
Hypothesis met_in_box :
  forall (pl : geometry.polygon_t) (p : coord),
    geometry.intersects_Point pl p = true ->
    index.overlaps (index.of_point p) (geometry.bounds pl) = true.

Lemma gap_nonneg lo hi qlo qhi : 0 <= index.gap lo hi qlo qhi.
Proof.
  unfold index.gap.
  destruct (Qle_bool qhi lo) eqn:E1; [apply Qle_bool_iff in E1; lra|].
  destruct (Qle_bool hi qlo) eqn:E2; [apply Qle_bool_iff in E2; lra|lra].
Qed.

Lemma gap_overlap lo hi qlo qhi :
  qlo <= hi -> lo <= qhi -> index.gap lo hi qlo qhi == 0.
Proof.
  intros H1 H2. unfold index.gap.
  destruct (Qle_bool qhi lo) eqn:E1; [apply Qle_bool_iff in E1; lra|].
  destruct (Qle_bool hi qlo) eqn:E2; [apply Qle_bool_iff in E2; lra|lra].
Qed.

Lemma dist2_nonneg q b : 0 <= index.dist2 q b.
Proof.
  unfold index.dist2.
  pose proof (gap_nonneg (minx b) (maxx b) (minx q) (maxx q)).
  pose proof (gap_nonneg (miny b) (maxy b) (miny q) (maxy q)).
  nra.
Qed.

Lemma dist2_overlap q b : index.overlaps q b = true -> index.dist2 q b == 0.
Proof.
  intros (H1 & H2 & H3 & H4)%overlaps_spec. unfold index.dist2.
  rewrite (gap_overlap (minx b) (maxx b) (minx q) (maxx q)) by done.
  rewrite (gap_overlap (miny b) (maxy b) (miny q) (maxy q)) by done.
  lra.
Qed.

Lemma insert_sorted_elem d l x : x ∈ index.insert_sorted d l -> x = d \/ x ∈ l.
Proof.
  induction l as [|y l IH]; simpl.
  - intros ->%list_elem_of_singleton. by left.
  - destruct (Qle_bool d y).
    + intros [->|H]%elem_of_cons; [by left|by right].
    + intros [->|H]%elem_of_cons; [right; by left|].
      destruct (IH H) as [->|H']; [by left|right; by right].
Qed.

Lemma sort_elem l x : x ∈ index.sort l -> x ∈ l.
Proof.
  induction l as [|y l IH]; simpl; [done|].
  intros [->|H]%insert_sorted_elem; [by left|right; by apply IH].
Qed.

(** An entry whose box overlaps the query is a candidate, however many
    results are asked for. *)
Lemma nearest_raw_overlapping q n t it :
  index.valid q = true -> it ∈ t -> index.overlaps q (index.bbox it) = true ->
  exists cands, index.nearest_raw traverse q n t = Ok cands /\ index.object it ∈ cands.
Proof.
  intros Hq Hin Hov. unfold index.nearest_raw, index.get_coordinate_pointers. rewrite Hq.
  assert (Hin' : it ∈ traverse t) by by rewrite (traverse_perm t).
  destruct (index.sort _ !! _) as [knearest|] eqn:Hk.
  - eexists. split; [done|]. apply list_elem_of_fmap_2, list_elem_of_In, filter_In.
    split; [by apply list_elem_of_In|]. apply Qle_bool_iff.
    apply list_elem_of_lookup_2, sort_elem, list_elem_of_fmap in Hk as (it' & -> & _).
    pose proof (dist2_nonneg q (index.bbox it')).
    pose proof (dist2_overlap _ _ Hov). lra.
  - eexists. split; [done|]. by apply list_elem_of_fmap_2.
Qed.

Lemma nearest_loop_ends (self : Polygon_File_Index) point cands :
  (forall d, d ∈ cands -> exists k, file d = Some k /\ is_Some (_polygons self !! k)) ->
  snd (nearest_loop self point cands) = None.
Proof.
  induction cands as [|d cands IH]; intros Hreg; [done|]. simpl.
  destruct (Hreg d) as (k & Hk & [pl Hpl]); [by left|].
  unfold getitem_file. rewrite Hk, Hpl.
  assert (snd (nearest_loop self point cands) = None).
  { apply IH. intros d' Hd'. apply Hreg. by right. }
  by destruct (geometry.intersects_Point pl point).
Qed.

(** In a consistent index [nearest] ends without raising and yields every
    stored record whose polygon meets the point: its box holds the point,
    so it is as near as an entry can be. *)
Lemma nearest_yields_every_containing (self : Polygon_File_Index) point it :
  consistent hash_string self ->
  it ∈ _rtree self -> contains self point (index.object it) ->
  snd (nearest traverse point self) = None /\
  index.object it ∈ fst (nearest traverse point self).
Proof.
  intros Hcons Hin Hc.
  assert (HF := tree_in_registry _ _ Hcons). rewrite Forall_forall in HF.
  assert (Hov : index.overlaps (index.of_point point) (index.bbox it) = true).
  { destruct (HF it Hin) as (k & c & pl0 & Hk & _ & _ & Hp & _ & Hbb & _).
    destruct Hc as (k' & pl & Hk' & Hpl & Hmeet).
    rewrite Hk in Hk'. injection Hk' as <-. rewrite Hp in Hpl. injection Hpl as <-.
    rewrite Hbb. by apply met_in_box. }
  destruct (nearest_raw_overlapping (index.of_point point) 1 (_rtree self) it)
    as (cands & Hq & Hcand); [apply of_point_valid | done | done |].
  destruct (nearest_candidates traverse self point) as (cands' & Hq' & _ & Hcomplete).
  rewrite Hq in Hq'. injection Hq' as <-.
  assert (Hend : snd (nearest traverse point self) = None).
  { unfold nearest. rewrite Hq. apply nearest_loop_ends.
    intros d Hd. revert Hq. unfold index.nearest_raw, index.get_coordinate_pointers.
    rewrite of_point_valid.
    assert (Hsub : forall its : list index.Item,
                     (forall x, x ∈ its -> x ∈ _rtree self) ->
                     d ∈ index.object <$> its ->
                     exists k, file d = Some k /\ is_Some (_polygons self !! k)).
    { intros its Hits (x & -> & Hx)%list_elem_of_fmap.
      destruct (HF x (Hits x Hx)) as (k & c & pl0 & Hk & _ & _ & Hp & _). exists k. eauto. }
    destruct (index.sort _ !! _); intros [= <-]; apply (Hsub _) in Hd; try done.
    - intros x [Hx _]%list_elem_of_In%filter_In. apply list_elem_of_In in Hx.
      by rewrite <- (traverse_perm (_rtree self)).
    - intros x Hx. by rewrite <- (traverse_perm (_rtree self)). }
  split; [done|]. by apply Hcomplete.
Qed.

End nearest_by_box.

(** C6. [nearest] yields only records that the tree returns as nearest by
    box for one requested result and whose registered polygon meets the
    point, so a record outside those candidates is not yielded even if its
    polygon meets the point; a candidate that meets the point is yielded
    when the generator ends without raising.  With the single square
    (0,0)-(10,10) stored under "A", [nearest (5,5)] yields that record and
    [nearest (50,50)] yields nothing. *)
Theorem nearest_contract (hash_string : string -> Z)
  (traverse : index.Index -> index.Index) :
  (forall t, traverse t ≡ₚ t) ->
  (forall (K : geometry.Kernel) (self : Polygon_File_Index) point,
      exists cands,
        index.nearest_raw traverse (index.of_point point) 1 (_rtree self) = Ok cands /\
        (forall d, d ∈ fst (nearest traverse point self) ->
                   d ∈ cands /\ contains self point d) /\
        (forall d, d ∉ cands -> d ∉ fst (nearest traverse point self)) /\
        (snd (nearest traverse point self) = None ->
         forall d, d ∈ cands -> contains self point d ->
                   d ∈ fst (nearest traverse point self))) /\
  (exists st : @Polygon_File_Index planar.kernel,
      insert hash_string record_A __init__ = (Ok tt, st) /\
      nearest traverse (5, 5) st = ([record_A], None) /\
      nearest traverse (50, 50) st = ([], None)).
Proof.
  intros Hperm. split.
  - intros K self point.
    destruct (nearest_candidates traverse self point) as (cands & Hq & Hs & Hc).
    exists cands. split; [done|]. split; [done|]. split; [|done].
    intros d Hout Hin. by apply Hout, Hs.
  - exists (@inserted planar.kernel hash_string "A" (planar.close (square 0 0 10 10))
              record_A __init__).
    split; [by rewrite (insert_fresh _ record_A "A" (square 0 0 10 10))|].
    assert (H1 : forall x, traverse [x] = [x]).
    { intros x. apply Permutation_singleton_r, Hperm. }
    unfold nearest, index.nearest_raw, inserted, __init__, index.empty.
    cbn [_rtree app]. rewrite H1. split; vm_compute; reflexivity.
Qed.

Section intersect.

Context {K : geometry.Kernel}.
Variable hash_string : string -> Z.
Variable traverse : index.Index -> index.Index.
Hypothesis traverse_perm : forall t, traverse t ≡ₚ t.

Lemma NoDup_fmap_filter {A B} (f : A -> B) (p : A -> bool) (l : list A) :
  NoDup (f <$> l) -> NoDup (f <$> List.filter p l).
Proof.
  induction l as [|x l IH]; [done|].
  rewrite fmap_cons. intros [Hx Hl]%NoDup_cons. cbn [List.filter].
  destruct (p x); [|by apply IH].
  rewrite fmap_cons. apply NoDup_cons. split; [|by apply IH].
  intros (y & Hy & Hin)%list_elem_of_fmap. apply Hx. rewrite Hy.
  apply list_elem_of_fmap_2. apply list_elem_of_In, filter_In in Hin as [Hin _].
  by apply list_elem_of_In.
Qed.

Lemma intersect_body_step (self : Polygon_File_Index) query d k
  (res : Polygon_File_Index) :
  file d = Some k -> is_Some (_polygons self !! k) ->
  clip_accepted self query d ->
  _polygons res !! k = None ->
  consistent hash_string res ->
  exists res',
    intersect_body hash_string self query d res = (Ok tt, res') /\
    consistent hash_string res' /\
    index.object <$> _rtree res' =
      (index.object <$> _rtree res) ++ from_option (fun nd => [nd]) [] (clipped self query d) /\
    forall k', k' <> k -> _polygons res' !! k' = _polygons res !! k'.
Proof.
  intros Hk [pl Hpl] Hacc Hfresh Hcons.
  destruct (Hacc k pl Hk Hpl) as (g & Hg & Hnew).
  unfold intersect_body, clipped, bind, lift, ret, getitem_file. rewrite Hk, Hpl, Hg.
  destruct (geometry.is_empty g) eqn:He.
  { exists res. simpl. by rewrite app_nil_r. }
  destruct (geometry.as_Polygon g) as [sp|] eqn:Hsp.
  2:{ exists res. simpl. by rewrite app_nil_r. }
  destruct (Hnew eq_refl sp eq_refl) as (npl & Hr & Hv).
  set (nd := dict_update_polygon d (geometry.exterior_coords sp)).
  exists (inserted hash_string k npl nd res).
  split; [|split; [|split]].
  - rewrite (insert_fresh _ nd k (geometry.exterior_coords sp)) by done.
    by rewrite Hr, Hv.
  - by eapply consistent_inserted.
  - simpl. by rewrite fmap_app.
  - intros k' Hne. simpl. by rewrite lookup_insert_ne.
Qed.

Lemma intersect_loop (self : Polygon_File_Index) query cands
  (res : Polygon_File_Index) :
  (forall d, d ∈ cands -> exists k, file d = Some k /\ is_Some (_polygons self !! k)) ->
  (forall d, d ∈ cands -> clip_accepted self query d) ->
  NoDup (file <$> cands) ->
  (forall d k, d ∈ cands -> file d = Some k -> _polygons res !! k = None) ->
  consistent hash_string res ->
  exists res',
    for_ cands (intersect_body hash_string self query) res = (Ok tt, res') /\
    consistent hash_string res' /\
    index.object <$> _rtree res' =
      (index.object <$> _rtree res) ++ omap (clipped self query) cands.
Proof.
  revert res. induction cands as [|d cands IH]; intros res Hreg Hacc Hnd Hfresh Hcons.
  - exists res. simpl. by rewrite app_nil_r.
  - destruct (Hreg d) as (k & Hk & Hin); [by left|].
    rewrite fmap_cons in Hnd. apply NoDup_cons in Hnd as [Hd Hnd].
    destruct (intersect_body_step self query d k res) as (res1 & Hstep & Hc1 & Ht1 & Hp1);
      [done | done | apply Hacc; by left | by apply (Hfresh d); [left|] | done |].
    destruct (IH res1) as (res' & Hrun & Hc' & Ht'); [| | done | | done |].
    + intros d' Hd'. apply Hreg. by right.
    + intros d' Hd'. apply Hacc. by right.
    + intros d' k' Hd' Hk'. rewrite Hp1.
      * apply (Hfresh d'); [by right|done].
      * intros ->. apply Hd. rewrite Hk, <- Hk'. by apply list_elem_of_fmap_2.
    + exists res'. split; [|split; [done|]].
      * simpl. unfold bind at 1. by rewrite Hstep.
      * rewrite Ht', Ht1. simpl. rewrite <- app_assoc. f_equal.
        by destruct (clipped self query d).
Qed.

(** A record is the payload with the coordinates replaced exactly when it
    has the payload's key and other fields and those coordinates. *)
Lemma dict_update_polygon_fields (d d' : data) c :
  d' = dict_update_polygon d c <->
  file d' = file d /\ polygon d' = Some c /\ extra d' = extra d.
Proof.
  split.
  - by intros ->.
  - destruct d'. simpl. intros (-> & -> & ->). done.
Qed.

(** C5. For coordinates from which the kernel builds the query polygon:
    [intersect] of an index without entries is the fresh index.  Of a
    consistent index, when the tree accepts the box of the query, the
    kernel intersects the query with the polygons of the entries that
    overlap that box, and [insert] accepts the resulting polygons, it
    returns a consistent index whose records are exactly these: for each
    entry whose box overlaps the box of the query and whose polygon meets
    the query in a non-empty polygon, the record with the key and the
    other fields of the entry's payload and the exterior coordinates of
    that polygon in its ['polygon'] field.  Empty and non-polygon
    intersections contribute nothing. *)
Theorem intersect_contract (coords : list coord) (q : geometry.polygon_t)
  (self : Polygon_File_Index) :
  geometry.Polygon coords = Ok q ->
  (size self = 0%nat -> intersect hash_string traverse coords self = Ok __init__) /\
  (consistent hash_string self ->
   index.valid (geometry.bounds q) = true ->
   (forall it, it ∈ _rtree self ->
               index.overlaps (geometry.bounds q) (index.bbox it) = true ->
               clip_accepted self q (index.object it)) ->
   exists res,
     intersect hash_string traverse coords self = Ok res /\
     consistent hash_string res /\
     forall d',
       d' ∈ index.object <$> _rtree res <->
       exists it k pl g sp,
         it ∈ _rtree self /\
         index.overlaps (geometry.bounds q) (index.bbox it) = true /\
         item_key it = Some k /\ _polygons self !! k = Some pl /\
         geometry.intersection q pl = Ok g /\
         geometry.is_empty g = false /\
         geometry.as_Polygon g = Some sp /\
         file d' = Some k /\
         polygon d' = Some (geometry.exterior_coords sp) /\
         extra d' = extra (index.object it)).
Proof.
  intros Hq. split.
  { intros Hsize. unfold intersect. unfold size in Hsize. by rewrite Hq, Hsize. }
  intros Hcons Hvq Hacc. unfold intersect. rewrite Hq.
  pose proof (consistent_valid _ _ Hcons) as Hv.
  rewrite (get_size_length _ Hv).
  destruct (_rtree self) as [|it0 t0] eqn:Ht.
  { exists __init__. simpl. split; [done|]. split; [apply consistent_init|].
    intros d'. split.
    - intros H. by apply elem_of_nil in H.
    - intros (it & _ & _ & _ & _ & H & _). by apply elem_of_nil in H. }
  rewrite <- Ht in *. replace (Nat.eqb (length (_rtree self)) 0) with false
    by (rewrite Ht; done).
  unfold index.intersection_raw, index.intersection, index.get_coordinate_pointers.
  rewrite Hvq.
  set (b := geometry.bounds q) in *.
  set (its := List.filter (fun it => index.overlaps b (index.bbox it)) (traverse (_rtree self))).
  assert (Hits : forall it, it ∈ its <-> it ∈ _rtree self /\ index.overlaps b (index.bbox it) = true).
  { intros it. unfold its. rewrite list_elem_of_In, filter_In, <- list_elem_of_In.
    by rewrite (traverse_perm (_rtree self)). }
  destruct Hcons as [HF HR HN HC]. rewrite Forall_forall in HF.
  destruct (intersect_loop self q (index.object <$> its) __init__)
    as (res & Hrun & Hcr & Htr).
  - intros d (it & -> & Hin)%list_elem_of_fmap. apply Hits in Hin as [Hin _].
    destruct (HF it Hin) as (k & c & pl0 & Hk & _ & _ & Hp & _). exists k. eauto.
  - intros d (it & -> & Hin)%list_elem_of_fmap. apply Hits in Hin as [Hin Hov].
    by apply Hacc.
  - rewrite <- list_fmap_compose. apply (NoDup_fmap_filter item_key).
    by rewrite (traverse_perm (_rtree self)).
  - intros d k _ _. apply lookup_empty.
  - apply consistent_init.
  - exists res. rewrite Hrun. split; [done|]. split; [done|].
    intros d'. rewrite Htr. simpl. rewrite list_elem_of_omap. split.
    + intros (d & (it & -> & Hin)%list_elem_of_fmap & Hclip).
      apply Hits in Hin as [Hin Hov]. revert Hclip. unfold clipped.
      destruct (file (index.object it)) as [k|] eqn:Hk; [|done].
      destruct (_polygons self !! k) as [pl|] eqn:Hpl; [|done].
      destruct (geometry.intersection q pl) as [g|e] eqn:Hg; [|done].
      destruct (geometry.is_empty g) eqn:He; [done|].
      destruct (geometry.as_Polygon g) as [sp|] eqn:Hsp; [|done].
      intros [= <-]. exists it, k, pl, g, sp. simpl. by rewrite Hk.
    + intros (it & k & pl & g & sp & Hin & Hov & Hk & Hpl & Hg & He & Hsp & Hf & Hp & Hx).
      exists (index.object it). split.
      * apply list_elem_of_fmap_2. by apply Hits.
      * unfold clipped. unfold item_key in Hk. rewrite Hk, Hpl, Hg, He, Hsp.
        f_equal. symmetry. apply dict_update_polygon_fields. by rewrite Hk.
Qed.

End intersect.

(** ** The planar kernel meets the assumptions *)

(** The test for collisions decides them. *)
Lemma collision_freeb_spec (hash_string : string -> Z) ks :
  collision_freeb hash_string ks = true -> collision_free hash_string ks.
Proof.
  unfold collision_freeb, collision_free. rewrite forallb_forall.
  intros H k1 k2 H1%list_elem_of_In H2%list_elem_of_In E.
  specialize (H k1 H1). rewrite forallb_forall in H. specialize (H k2 H2).
  apply orb_true_iff in H as [H|H].
  - by apply bool_decide_eq_true in H.
  - apply negb_true_iff, Z.eqb_neq in H. done.
Qed.

Lemma in_order_perm t : planar.in_order t ≡ₚ t.
Proof. reflexivity. Qed.

Lemma ring_bounds_valid (r : list coord) : index.valid (planar.ring_bounds r) = true.
Proof.
  destruct r as [|a r]; [done|]. unfold planar.ring_bounds.
  assert (Hstart : index.valid
            {| minx := fst a; miny := snd a; maxx := fst a; maxy := snd a |} = true).
  { apply valid_spec. simpl. split; apply Qle_refl. }
  revert Hstart. generalize {| minx := fst a; miny := snd a; maxx := fst a; maxy := snd a |}.
  induction r as [|p r IH]; intros b Hb; [done|]. simpl. apply IH.
  apply valid_spec in Hb as [Hx Hy]. apply valid_spec. simpl.
  pose proof (qmin_le_l (minx b) (fst p)). pose proof (qmax_ge_l (maxx b) (fst p)).
  pose proof (qmin_le_l (miny b) (snd p)). pose proof (qmax_ge_l (maxy b) (snd p)).
  split; lra.
Qed.

Lemma index_of_run ops :
  fst (run planar.numbering ops __init__) = Ok tt ->
  run planar.numbering ops __init__ = (Ok tt, index_of ops).
Proof.
  unfold index_of. by destruct (run planar.numbering ops __init__) as [r s]; simpl; intros ->.
Qed.

Lemma index_of_consistent ops :
  collision_freeb planar.numbering (keys ops) = true ->
  fst (run planar.numbering ops __init__) = Ok tt ->
  consistent planar.numbering (index_of ops).
Proof.
  intros Hc H. eapply reachable_consistent;
    [by apply collision_freeb_spec | by apply index_of_run].
Qed.


Lemma make_length c r : planar.make c = Ok r -> (length c <= length r)%nat.
Proof.
  unfold planar.make, planar.close. destruct c as [|a c]; [by intros [= <-]|].
  destruct (_ <? _)%nat; [done|].
  destruct (_ =? _)%nat; [intros [= <-]; simpl; rewrite length_app; simpl; lia|].
  destruct (planar.coord_eqb _ _); intros [= <-]; [done|].
  simpl. rewrite length_app. simpl. lia.
Qed.

Lemma make_ok c : (3 <= length c)%nat -> exists r, planar.make c = Ok r.
Proof.
  intros H. unfold planar.make. destruct c as [|a c]; [eauto|].
  destruct (_ <? _)%nat eqn:E; [apply Nat.ltb_lt in E; lia|].
  destruct (_ =? _)%nat; eauto.
Qed.

Lemma close_length r : (length r <= length (planar.close r))%nat.
Proof.
  unfold planar.close. destruct r as [|a r]; [done|].
  destruct (planar.coord_eqb _ _); [done|]. simpl. rewrite length_app. simpl. lia.
Qed.

Lemma vertices_length r : (length (planar.vertices r) <= length r)%nat.
Proof.
  unfold planar.vertices. destruct r as [|a r]; [done|].
  destruct (planar.coord_eqb _ _); [|done].
  rewrite removelast_firstn_len, length_firstn. lia.
Qed.

(** A polygon that comes out of the clipping has three points at least. *)
Lemma classify_polygon r sp :
  planar.classify r = planar.APolygon sp -> (3 <= length sp)%nat.
Proof.
  unfold planar.classify.
  pose proof (vertices_length (planar.dedup r)) as Hv.
  pose proof (close_length (planar.dedup r)) as Hc.
  destruct (planar.vertices (planar.dedup r)) as [|p [|p' [|p'' l]]]; try done.
  destruct (Qeq_bool _ _); [done|]. intros [= <-]. simpl in Hv. lia.
Qed.

(** The planar kernel intersects any two rings, and [insert] accepts the
    polygons it returns. *)
Lemma planar_clip_accepted (self : @Polygon_File_Index planar.kernel) q d :
  clip_accepted self q d.
Proof.
  intros k pl _ _. exists (planar.clip q pl). split; [done|].
  intros _ sp Hsp. simpl in Hsp.
  destruct (planar.clip q pl) as [| | |r] eqn:Hg; try done.
  injection Hsp as ->. apply classify_polygon in Hg.
  destruct (make_ok sp Hg) as [npl Hr]. exists npl. split; [exact Hr|].
  apply ring_bounds_valid.
Qed.

(** ** The properties on concrete inputs *)

Lemma registry_and_tree_agree_witness :
  collision_free planar.numbering (keys example_ops) /\
  run planar.numbering example_ops __init__ = (Ok tt, index_of example_ops) /\
  (forall k pl,
      _polygons (index_of example_ops) !! k = Some pl <->
      exists it c, it ∈ _rtree (index_of example_ops) /\ item_key it = Some k /\
                   polygon (index.object it) = Some c /\ geometry.Polygon c = Ok pl) /\
  NoDup (item_key <$> _rtree (index_of example_ops)) /\
  size (index_of example_ops) = base.size (list_to_set (keys example_ops) : gset string).
Proof.
  assert (Hrun : run planar.numbering example_ops __init__ = (Ok tt, index_of example_ops)).
  { apply index_of_run. vm_compute. reflexivity. }
  assert (Hcf : collision_free planar.numbering (keys example_ops)).
  { apply collision_freeb_spec. vm_compute. reflexivity. }
  split; [exact Hcf|]. split; [exact Hrun|].
  exact (registry_and_tree_agree planar.numbering example_ops (index_of example_ops)
           Hcf Hrun).
Defined.

Lemma malformed_record_rejected_witness :
  let d := {| file := None; polygon := None; extra := ∅ |} in
  (file d = None \/ polygon d = None) /\
  exists msg,
    insert planar.numbering d (index_of example_ops)
      = (Raise (RuntimeError msg), index_of example_ops) /\
    update planar.numbering d (index_of example_ops)
      = (Raise (RuntimeError msg), index_of example_ops).
Proof.
  intros d. split; [by left|].
  apply (malformed_record_rejected planar.numbering d (index_of example_ops)). by left.
Defined.

Lemma insert_first_write_wins_witness :
  let d1 := record_A in
  let d2 := record "A" (square 1 1 2 2) in
  let self : @Polygon_File_Index planar.kernel := __init__ in
  let pl1 : @geometry.polygon_t planar.kernel := planar.close (square 0 0 10 10) in
  (file d1 = Some "A" /\ polygon d1 = Some (square 0 0 10 10) /\
   file d2 = Some "A" /\ polygon d2 = Some (square 1 1 2 2) /\
   _polygons self !! "A" = None /\
   geometry.Polygon (square 0 0 10 10) = Ok pl1 /\
   index.valid (geometry.bounds pl1) = true) /\
  exists self1,
    insert planar.numbering d1 self = (Ok tt, self1) /\
    insert planar.numbering d2 self1 = (Ok tt, self1) /\
    _polygons self1 !! "A" = Some pl1 /\
    index.object <$> _rtree self1 = (index.object <$> _rtree self) ++ [d1].
Proof.
  intros d1 d2 self pl1. split; [done|].
  destruct (insert_first_write_wins planar.numbering d1 d2 "A"
              (square 0 0 10 10) (square 1 1 2 2) self eq_refl eq_refl eq_refl eq_refl)
    as [_ H].
  exact (H eq_refl pl1 eq_refl eq_refl).
Defined.

Lemma update_discards_metadata_witness :
  let self := index_of [Insert (tagged "A" (square 0 0 10 10) "alice")] in
  let d := tagged "A" square_noise "bob" in
  let pl : @geometry.polygon_t planar.kernel := planar.close (square 0 0 10 10) in
  let npl : @geometry.polygon_t planar.kernel := planar.close square_noise in
  (file d = Some "A" /\ polygon d = Some square_noise /\
   _polygons self !! "A" = Some pl /\
   geometry.Polygon square_noise = Ok npl /\
   geometry.almost_equals pl npl = true) /\
  update planar.numbering d self = (Ok false, self) /\
  index.object <$> _rtree (snd (update planar.numbering d self))
  = index.object <$> _rtree self.
Proof.
  intros self d pl npl.
  assert (Hpl : _polygons self !! "A" = Some pl) by (vm_compute; reflexivity).
  assert (Hr : geometry.Polygon square_noise = Ok npl) by (vm_compute; reflexivity).
  assert (Heq : geometry.almost_equals pl npl = true) by (vm_compute; reflexivity).
  split; [done|].
  exact (update_discards_metadata planar.numbering d "A" square_noise pl npl self
           eq_refl eq_refl Hpl Hr Heq).
Defined.


Lemma save_empty_index_raises_witness :
  let self : @Polygon_File_Index planar.kernel := __init__ in
  _rtree self = [] /\
  size self = 0%nat /\
  exists msg, save planar.in_order "index.json" self ∅ = (Raise (RTreeError msg), ∅).
Proof.
  intros self. split; [done|].
  exact (save_empty_index_raises planar.in_order self "index.json" ∅ eq_refl).
Defined.

Lemma intersect_contract_witness :
  let self := index_of [Insert record_A; Insert record_B] in
  let coords := square 5 5 15 15 in
  let q : @geometry.polygon_t planar.kernel := planar.close coords in
  ((forall t, planar.in_order t ≡ₚ t) /\
   geometry.Polygon coords = Ok q /\
   consistent planar.numbering self /\
   index.valid (geometry.bounds q) = true /\
   (forall it, it ∈ _rtree self ->
               index.overlaps (geometry.bounds q) (index.bbox it) = true ->
               clip_accepted self q (index.object it))) /\
  (size self = 0%nat -> intersect planar.numbering planar.in_order coords self = Ok __init__) /\
  exists res,
    intersect planar.numbering planar.in_order coords self = Ok res /\
    consistent planar.numbering res /\
    forall d',
      d' ∈ index.object <$> _rtree res <->
      exists it k pl g sp,
        it ∈ _rtree self /\
        index.overlaps (geometry.bounds q) (index.bbox it) = true /\
        item_key it = Some k /\ _polygons self !! k = Some pl /\
        geometry.intersection q pl = Ok g /\
        geometry.is_empty g = false /\
        geometry.as_Polygon g = Some sp /\
        file d' = Some k /\
        polygon d' = Some (geometry.exterior_coords sp) /\
        extra d' = extra (index.object it).
Proof.
  intros self coords q.
  assert (Hq : geometry.Polygon coords = Ok q) by (vm_compute; reflexivity).
  assert (Hc : consistent planar.numbering self).
  { apply index_of_consistent; vm_compute; reflexivity. }
  assert (Hv : index.valid (geometry.bounds q) = true) by (vm_compute; reflexivity).
  assert (Ha : forall it, it ∈ _rtree self ->
                 index.overlaps (geometry.bounds q) (index.bbox it) = true ->
                 clip_accepted self q (index.object it)).
  { intros it _ _. apply planar_clip_accepted. }
  split; [split; [apply in_order_perm | done]|].
  destruct (intersect_contract (K := planar.kernel) planar.numbering planar.in_order
              in_order_perm coords q self Hq) as [Hempty Hfull].
  split; [exact Hempty|]. by apply Hfull.
Defined.

Lemma nearest_contract_witness :
  (forall t, planar.in_order t ≡ₚ t) /\
  (forall (K : geometry.Kernel) (self : Polygon_File_Index) point,
      exists cands,
        index.nearest_raw planar.in_order (index.of_point point) 1 (_rtree self) = Ok cands /\
        (forall d, d ∈ fst (nearest planar.in_order point self) ->
                   d ∈ cands /\ contains self point d) /\
        (forall d, d ∉ cands -> d ∉ fst (nearest planar.in_order point self)) /\
        (snd (nearest planar.in_order point self) = None ->
         forall d, d ∈ cands -> contains self point d ->
                   d ∈ fst (nearest planar.in_order point self))) /\
  (exists st : @Polygon_File_Index planar.kernel,
      insert planar.numbering record_A __init__ = (Ok tt, st) /\
      nearest planar.in_order (5, 5) st = ([record_A], None) /\
      nearest planar.in_order (50, 50) st = ([], None)).
Proof.
  split; [apply in_order_perm|].
  exact (nearest_contract planar.numbering planar.in_order in_order_perm).
Defined.



Lemma load_duplicates_key_witness :
  let self := index_of [Insert record_A] in
  let b := {| minx := 0; miny := 0; maxx := 10; maxy := 10 |} in
  let x := {| e_id := Some (node_id planar.numbering "A"); e_bbox := Some b;
              e_object := Some record_A |} in
  let fs : files := {[ "index.json" := [x] ]} in
  let pl : @geometry.polygon_t planar.kernel := planar.close (square 0 0 10 10) in
  (fs !! "index.json" = Some [x] /\ index.valid b = true /\
   geometry.Polygon (square 0 0 10 10) = Ok pl /\
   is_Some (_polygons self !! "A") /\ consistent planar.numbering self) /\
  exists self',
    load fs "index.json" self = (Ok tt, self') /\
    _rtree self' = _rtree self ++
                   [index.mk_item (index.c_int64 (node_id planar.numbering "A")) b record_A] /\
    _polygons self' = <[ "A" := pl ]> (_polygons self) /\
    length (_rtree self') = S (base.size (_polygons self')) /\
    size self' = S (base.size (dom (_polygons self'))).
Proof.
  intros self b x fs pl.
  assert (Hfs : fs !! "index.json" = Some [x]) by (vm_compute; reflexivity).
  assert (Hin : is_Some (_polygons self !! "A")) by (vm_compute; eauto).
  assert (Hc : consistent planar.numbering self).
  { apply index_of_consistent; vm_compute; reflexivity. }
  split; [done|].
  exact (load_duplicates_key planar.numbering fs "index.json" x
           (node_id planar.numbering "A") b record_A "A" (square 0 0 10 10) pl self
           Hfs eq_refl eq_refl eq_refl eq_refl eq_refl eq_refl eq_refl Hin Hc).
Defined.

(** Two entries for one key, as [load] makes them: [intersect] returns
    the first payload with the clip of the polygon registered last, and no
    record with the clip of the first payload's own polygon. *)
Lemma intersect_contract_counterexample :
  let c1 := square 0 0 10 10 in
  let c2 := square 20 20 30 30 in
  let b1 := {| minx := 0; miny := 0; maxx := 10; maxy := 10 |} in
  let b2 := {| minx := 20; miny := 20; maxx := 30; maxy := 30 |} in
  let x1 := {| e_id := Some 1%Z; e_bbox := Some b1;
               e_object := Some (tagged "A" c1 "alice") |} in
  let x2 := {| e_id := Some 2%Z; e_bbox := Some b2;
               e_object := Some (tagged "A" c2 "bob") |} in
  let fs : files := {[ "index.json" := [x1; x2] ]} in
  let self : @Polygon_File_Index planar.kernel := snd (load fs "index.json" __init__) in
  let coords := square 0 0 100 100 in
  let q : @geometry.polygon_t planar.kernel := planar.close coords in
  let it := index.mk_item 1 b1 (tagged "A" c1 "alice") in
  let pl : @geometry.polygon_t planar.kernel := planar.close c1 in
  fst (load (K := planar.kernel) fs "index.json" __init__) = Ok tt /\
  geometry.Polygon coords = Ok q /\
  it ∈ _rtree self /\
  index.overlaps (geometry.bounds q) (index.bbox it) = true /\
  geometry.Polygon c1 = Ok pl /\
  exists g r res,
    geometry.intersection q pl = Ok g /\
    geometry.is_empty g = false /\
    geometry.as_Polygon g = Some r /\
    intersect planar.numbering planar.in_order coords self = Ok res /\
    length (_rtree res) = 1%nat /\
    forall d', d' ∈ index.object <$> _rtree res ->
               polygon d' <> Some (geometry.exterior_coords r).
Proof.
  intros c1 c2 b1 b2 x1 x2 fs self coords q it pl.
  split; [vm_compute; reflexivity|].
  split; [vm_compute; reflexivity|].
  split.
  { replace (_rtree self) with [it; index.mk_item 2 b2 (tagged "A" c2 "bob")]
      by (vm_compute; reflexivity).
    by left. }
  split; [vm_compute; reflexivity|].
  split; [vm_compute; reflexivity|].
  exists (planar.clip q pl),
    (match planar.clip q pl with planar.APolygon r => r | _ => [] end).
  assert (Hok : match intersect planar.numbering planar.in_order coords self with
                | Ok _ => true
                | Raise _ => false
                end = true) by (vm_compute; reflexivity).
  assert (Hres : match intersect planar.numbering planar.in_order coords self with
                 | Ok res => index.object <$> _rtree res
                 | Raise _ => []
                 end
                 = [dict_update_polygon (tagged "A" c1 "alice")
                      (match planar.clip q (planar.close c2) with
                       | planar.APolygon r => r
                       | _ => []
                       end)]) by (vm_compute; reflexivity).
  destruct (intersect planar.numbering planar.in_order coords self) as [res|e];
    [|discriminate Hok].
  exists res. split; [reflexivity|]. split; [vm_compute; reflexivity|].
  split; [vm_compute; reflexivity|]. split; [reflexivity|]. split.
  { apply (f_equal length) in Hres. by rewrite length_fmap in Hres. }
  intros d' Hd'. rewrite Hres in Hd'. apply list_elem_of_singleton in Hd' as ->.
  vm_compute. discriminate.
Defined.

(** * Further properties *)

(** ** What every use of the index keeps *)

Section any_use.

Context {K : geometry.Kernel}.
Variable hash_string : string -> Z.

Lemma entry_ok_weaken (self self' : Polygon_File_Index) it :
  dom (_polygons self) ⊆ dom (_polygons self') ->
  entry_ok self it -> entry_ok self' it.
Proof.
  intros Hsub (Hid & Hv & k & c & pl & Hk & Hc & Hr & Hin).
  split; [done|]. split; [done|].
  exists k, c, pl. split; [done|]. split; [done|]. split; [done|].
  apply elem_of_dom, Hsub, elem_of_dom, Hin.
Qed.

Lemma remove_entry_subset i b t it : it ∈ index.remove_entry i b t -> it ∈ t.
Proof.
  induction t as [|it0 t IH]; simpl; [done|].
  destruct (_ && _).
  - intros H. by right.
  - intros [->|H]%elem_of_cons; [by left|right; by apply IH].
Qed.

(** The index [update] leaves behind, whatever the outcome. *)
Lemma update_state (d : data) (self : Polygon_File_Index) :
  snd (update hash_string d self) = self \/
  exists k c, file d = Some k /\ polygon d = Some c /\
    (_polygons self !! k = None /\
     snd (update hash_string d self) = snd (insert hash_string d self)
     \/
     exists pl npl, _polygons self !! k = Some pl /\
       geometry.Polygon c = Ok npl /\
       snd (update hash_string d self)
       = snd (insert hash_string d (removed hash_string k pl self))).
Proof.
  destruct (_check_data d) as [[]|e] eqn:Hchk;
    [|left; by rewrite (update_malformed _ d e)].
  apply check_data_ok in Hchk as (k & c & Hk & Hc).
  destruct (_polygons self !! k) as [pl|] eqn:Hpl.
  - destruct (geometry.Polygon c) as [npl|e] eqn:Hr;
      [|left; by rewrite (update_no_ring _ d k c pl e)].
    destruct (geometry.almost_equals pl npl) eqn:Heq.
    { left. by rewrite (update_unchanged _ d k c pl npl). }
    destruct (index.valid (geometry.bounds pl)) eqn:Hv.
    + right. exists k, c. split; [done|]. split; [done|]. right. exists pl, npl.
      split; [done|]. split; [done|]. rewrite (update_changed _ d k c pl npl) by done.
      by destruct (insert hash_string d _) as [[] ?].
    + left. by rewrite (update_old_box _ d k c pl npl).
  - right. exists k, c. split; [done|]. split; [done|]. left. split; [done|].
    rewrite (update_new _ d k c) by done.
    by destruct (insert hash_string d self) as [[] ?].
Qed.

(** The index [insert] leaves behind, whatever the outcome. *)
Lemma insert_state (d : data) (self : Polygon_File_Index) :
  snd (insert hash_string d self) = self \/
  exists k c pl, file d = Some k /\ polygon d = Some c /\
    geometry.Polygon c = Ok pl /\
    _polygons self !! k = None /\
    (index.valid (geometry.bounds pl) = true /\
     snd (insert hash_string d self) = inserted hash_string k pl d self
     \/
     index.valid (geometry.bounds pl) = false /\
     snd (insert hash_string d self) = set_polygons <[k := pl]> self).
Proof.
  destruct (_check_data d) as [[]|e] eqn:Hchk;
    [|left; by rewrite (insert_malformed _ d e)].
  apply check_data_ok in Hchk as (k & c & Hk & Hc).
  destruct (_polygons self !! k) as [pl|] eqn:Hpl.
  - left. by rewrite (insert_present _ d k c) by eauto.
  - rewrite (insert_fresh _ d k c) by done.
    destruct (geometry.Polygon c) as [pl|e] eqn:Hr; [|by left].
    right. exists k, c, pl. split; [done|]. split; [done|]. split; [done|].
    split; [done|].
    destruct (index.valid _); [left|right]; done.
Qed.

Lemma grows_refl (self : Polygon_File_Index) : grows self self.
Proof. split; [by left|done]. Qed.

Lemma grows_trans (s1 s2 s3 : Polygon_File_Index) :
  grows s1 s2 -> grows s2 s3 -> grows s1 s3.
Proof.
  intros [A1 B1] [A2 B2]. split; [|by transitivity (dom (_polygons s2))].
  intros it Hit. destruct (A2 it Hit) as [H|H]; [|by right].
  destruct (A1 it H) as [H'|H']; [by left|right]. by eapply entry_ok_weaken.
Qed.

Lemma grows_tree_ok (self self' : Polygon_File_Index) :
  grows self self' -> tree_ok self -> tree_ok self'.
Proof.
  intros [A B] Hok. apply Forall_forall. intros it Hit.
  destruct (A it Hit) as [H|H]; [|done].
  eapply entry_ok_weaken; [done|]. unfold tree_ok in Hok.
  rewrite Forall_forall in Hok. by apply Hok.
Qed.

Lemma insert_grows (d : data) (self : Polygon_File_Index) :
  grows self (snd (insert hash_string d self)).
Proof.
  destruct (insert_state d self)
    as [->|(k & c & pl & Hk & Hc & Hr & Hnew & [[Hv ->]|[Hv ->]])].
  - apply grows_refl.
  - split; simpl.
    + intros it [Hit|Hit]%elem_of_app; [by left|right].
      apply list_elem_of_singleton in Hit as ->.
      split; [apply c_int64_idem|]. split; [done|].
      exists k, c, pl. simpl. rewrite lookup_insert_eq. eauto.
    + rewrite dom_insert_L. apply union_subseteq_r.
  - split; simpl; [by left|]. rewrite dom_insert_L. apply union_subseteq_r.
Qed.

(** A record from whose coordinates the kernel builds a polygon has its
    key registered once [insert] is over. *)
Lemma insert_registers (d : data) k c pl (self : Polygon_File_Index) :
  file d = Some k -> polygon d = Some c -> geometry.Polygon c = Ok pl ->
  k ∈ dom (_polygons (snd (insert hash_string d self))).
Proof.
  intros Hk Hc Hr. apply elem_of_dom.
  destruct (_polygons self !! k) as [pl'|] eqn:Hpl.
  - rewrite (insert_present _ d k c) by eauto. simpl. eauto.
  - rewrite (insert_fresh _ d k c) by done. rewrite Hr.
    destruct (index.valid _); simpl; rewrite lookup_insert_eq; eauto.
Qed.

Lemma update_grows (d : data) (self : Polygon_File_Index) :
  grows self (snd (update hash_string d self)).
Proof.
  destruct (update_state d self)
    as [->|(k & c & Hk & Hc & [[Hnew ->]|(pl & npl & Hpl & Hr & ->)])].
  - apply grows_refl.
  - apply insert_grows.
  - destruct (insert_grows d (removed hash_string k pl self)) as [A B].
    pose proof (insert_registers d k c npl (removed hash_string k pl self) Hk Hc Hr) as Hreg.
    split.
    + intros it Hit. destruct (A it Hit) as [H|H]; [left|by right].
      simpl in H. by apply remove_entry_subset in H.
    + intros k' Hk'. destruct (decide (k' = k)) as [->|Hne]; [done|].
      apply B. simpl. rewrite dom_delete_L. apply elem_of_difference.
      split; [done|]. by intros ?%elem_of_singleton.
Qed.

(** The index [load] leaves behind after one entry, whatever the
    outcome. *)
Lemma load_body_state (x : entry) (self : Polygon_File_Index) :
  snd (load_body x self) = self \/
  exists i b o k c, e_id x = Some i /\ e_bbox x = Some b /\ e_object x = Some o /\
    file o = Some k /\ polygon o = Some c /\ index.valid b = true /\
    match geometry.Polygon c with
    | Ok pl => snd (load_body x self) = appended i b o k pl self
    | Raise _ => snd (load_body x self) = entered i b o self
    end.
Proof.
  destruct (e_object x) as [o|] eqn:Ho.
  2:{ left. rewrite load_body_skip; [done|]. intros o. by rewrite Ho. }
  destruct (file o) as [k|] eqn:Hk.
  2:{ left. rewrite load_body_skip; [done|]. intros o' Ho'. rewrite Ho in Ho'.
      injection Ho' as <-. by left. }
  destruct (polygon o) as [c|] eqn:Hc.
  2:{ left. rewrite load_body_skip; [done|]. intros o' Ho'. rewrite Ho in Ho'.
      injection Ho' as <-. by right. }
  destruct (e_id x) as [i|] eqn:Hi.
  2:{ left. unfold load_body, bind, try_except, lift, ret, getitem_object,
        getitem_id, _check_data. by rewrite Ho, Hk, Hc, Hi. }
  destruct (e_bbox x) as [b|] eqn:Hb.
  2:{ left. unfold load_body, bind, try_except, lift, ret, getitem_object,
        getitem_id, getitem_bbox, _check_data. by rewrite Ho, Hk, Hc, Hi, Hb. }
  destruct (index.valid b) eqn:Hv.
  2:{ left. unfold load_body, bind, try_except, lift, ret, rtree_call, getitem_object,
        getitem_id, getitem_bbox, _check_data, index.insert,
        index.get_coordinate_pointers.
      rewrite Ho, Hk, Hc, Hi, Hb. simpl. by rewrite Hv. }
  right. exists i, b, o, k, c. repeat (split; [done|]).
  destruct (geometry.Polygon c) as [pl|e] eqn:Hr.
  - by rewrite (load_body_accept x i b o k c pl).
  - by rewrite (load_body_no_ring x i b o k c e).
Qed.

Lemma load_body_grows (x : entry) (self : Polygon_File_Index) :
  (forall o c, e_object x = Some o -> polygon o = Some c ->
               exists pl, geometry.Polygon c = Ok pl) ->
  grows self (snd (load_body x self)).
Proof.
  intros Hring.
  destruct (load_body_state x self)
    as [->|(i & b & o & k & c & Hi & Hb & Ho & Hk & Hc & Hv & H)];
    [apply grows_refl|].
  destruct (Hring o c Ho Hc) as [pl Hr]. rewrite Hr in H. rewrite H.
  split; simpl.
  - intros it [Hit|Hit]%elem_of_app; [by left|right].
    apply list_elem_of_singleton in Hit as ->.
    split; [apply c_int64_idem|]. split; [done|].
    exists k, c, pl. simpl. rewrite lookup_insert_eq. eauto.
  - rewrite dom_insert_L. apply union_subseteq_r.
Qed.

Lemma load_loop_grows (xs : list entry) (self : Polygon_File_Index) :
  (forall x o c, x ∈ xs -> e_object x = Some o -> polygon o = Some c ->
                 exists pl, geometry.Polygon c = Ok pl) ->
  grows self (snd (for_ xs load_body self)).
Proof.
  revert self. induction xs as [|x xs IH]; intros self Hring; [apply grows_refl|].
  simpl. unfold bind at 1.
  assert (Hx : grows self (snd (load_body x self))).
  { apply load_body_grows. intros o c. apply Hring. by left. }
  destruct (load_body x self) as [[[]|e] s]; [|done].
  eapply grows_trans; [exact Hx|apply IH].
  intros x' o c Hin. apply Hring. by right.
Qed.

Lemma perform_grows (c : call) (self : Polygon_File_Index) :
  rings_ok c -> grows self (perform hash_string self c).
Proof.
  destruct c as [d|d|fs fn]; simpl; intros Hring.
  - apply insert_grows.
  - apply update_grows.
  - unfold load. destruct (fs !! fn) as [xs|] eqn:Hfs; [|apply grows_refl].
    apply load_loop_grows. intros x o c. by apply Hring.
Qed.

Lemma after_tree_ok (cs : list call) :
  Forall rings_ok cs -> tree_ok (after hash_string cs).
Proof.
  unfold after.
  assert (H : forall self, Forall rings_ok cs -> tree_ok self ->
                           tree_ok (foldl (perform hash_string) self cs)).
  { induction cs as [|c cs IH]; intros self Hr Hok; [done|]. simpl.
    apply Forall_cons in Hr as [Hc Hr].
    apply IH; [done|]. eapply grows_tree_ok; [by apply perform_grows|done]. }
  intros Hr. apply H; [done|]. constructor.
Qed.

(** *** Boxes, whatever is loaded *)

Lemma remove_entry_valid i b t :
  index.all_valid t -> index.all_valid (index.remove_entry i b t).
Proof.
  unfold index.all_valid. rewrite !Forall_forall. intros H it Hit.
  by apply H, (remove_entry_subset i b).
Qed.

Lemma insert_valid (d : data) (self : Polygon_File_Index) :
  index.all_valid (_rtree self) ->
  index.all_valid (_rtree (snd (insert hash_string d self))).
Proof.
  intros Hv.
  destruct (insert_state d self)
    as [->|(k & c & pl & Hk & Hc & Hr & Hnew & [[Hb ->]|[Hb ->]])]; [done| |done].
  simpl. apply Forall_app. split; [done|]. by constructor.
Qed.

Lemma update_valid (d : data) (self : Polygon_File_Index) :
  index.all_valid (_rtree self) ->
  index.all_valid (_rtree (snd (update hash_string d self))).
Proof.
  intros Hv.
  destruct (update_state d self)
    as [->|(k & c & Hk & Hc & [[Hnew ->]|(pl & npl & Hpl & Hr & ->)])]; [done| |].
  - by apply insert_valid.
  - apply insert_valid. simpl. by apply remove_entry_valid.
Qed.

Lemma load_body_valid (x : entry) (self : Polygon_File_Index) :
  index.all_valid (_rtree self) ->
  index.all_valid (_rtree (snd (load_body x self))).
Proof.
  intros Hv.
  destruct (load_body_state x self)
    as [->|(i & b & o & k & c & Hi & Hb & Ho & Hk & Hc & Hvb & H)]; [done|].
  destruct (geometry.Polygon c); rewrite H; simpl;
    (apply Forall_app; split; [done|by constructor]).
Qed.

Lemma load_loop_valid (xs : list entry) (self : Polygon_File_Index) :
  index.all_valid (_rtree self) ->
  index.all_valid (_rtree (snd (for_ xs load_body self))).
Proof.
  revert self. induction xs as [|x xs IH]; intros self Hv; [done|].
  simpl. unfold bind at 1.
  pose proof (load_body_valid x self Hv) as Hx.
  destruct (load_body x self) as [[[]|e] s]; [|done]. by apply IH.
Qed.

Lemma perform_valid (c : call) (self : Polygon_File_Index) :
  index.all_valid (_rtree self) ->
  index.all_valid (_rtree (perform hash_string self c)).
Proof.
  destruct c as [d|d|fs fn]; simpl; intros Hv.
  - by apply insert_valid.
  - by apply update_valid.
  - unfold load. destruct (fs !! fn) as [xs|]; [by apply load_loop_valid|done].
Qed.

Lemma after_valid (cs : list call) : index.all_valid (_rtree (after hash_string cs)).
Proof.
  unfold after.
  assert (H : forall self, index.all_valid (_rtree self) ->
                index.all_valid (_rtree (foldl (perform hash_string) self cs))).
  { induction cs as [|c cs IH]; intros self Hv; [done|]. simpl.
    by apply IH, perform_valid. }
  apply H. constructor.
Qed.

End any_use.

Section any_use_queries.

Context {K : geometry.Kernel}.
Variable hash_string : string -> Z.
Variable traverse : index.Index -> index.Index.
Hypothesis traverse_perm : forall t, traverse t ≡ₚ t.

Lemma tree_ok_valid (self : Polygon_File_Index) :
  tree_ok self -> index.all_valid (_rtree self).
Proof. intros H. eapply Forall_impl; [exact H|]. by intros it (_ & Hv & _). Qed.

(** X1. After any calls of [insert], [update] and [load], whether they
    returned or raised, [size] is the number of entries of the tree. *)
Theorem size_counts_entries (cs : list call) :
  size (after hash_string cs) = length (_rtree (after hash_string cs)).
Proof. apply get_size_length, after_valid. Qed.

(** X2. After calls that load no coordinates from which the kernel builds
    no polygon, every entry of the tree carries an identifier of the
    tree's range, a box the tree accepts and a payload with both fields,
    whose coordinates make a polygon and whose key is registered; and a
    further such call, whatever its outcome, takes no key out of the
    registry and no entry into the tree that is not of this kind. *)
Theorem calls_keep_entries_registered (cs : list call) (c : call) :
  Forall rings_ok cs -> rings_ok c ->
  tree_ok (after hash_string cs) /\
  grows (after hash_string cs) (after hash_string (cs ++ [c])).
Proof.
  intros Hcs Hc. split; [by apply after_tree_ok|].
  unfold after. rewrite foldl_app. simpl. by apply perform_grows.
Qed.

Lemma nearest_raw_subset q n t d :
  forall cands, index.nearest_raw traverse q n t = Ok cands -> d ∈ cands ->
  exists it, it ∈ t /\ index.object it = d.
Proof.
  intros cands. unfold index.nearest_raw. destruct (index.get_coordinate_pointers q); [|done].
  destruct (index.sort _ !! _); intros [= <-] (it & -> & Hit)%list_elem_of_fmap.
  - apply list_elem_of_In, filter_In in Hit as [Hit _]. apply list_elem_of_In in Hit.
    exists it. split; [|done]. by rewrite <- (traverse_perm t).
  - exists it. split; [|done]. by rewrite <- (traverse_perm t).
Qed.

(** X3. After calls that load no coordinates from which the kernel builds
    no polygon, [nearest] ends without raising, whatever the point; on an
    index without entries it yields nothing. *)
Theorem nearest_never_raises (cs : list call) (point : coord) :
  Forall rings_ok cs ->
  snd (nearest traverse point (after hash_string cs)) = None /\
  (_rtree (after hash_string cs) = [] ->
   nearest traverse point (after hash_string cs) = ([], None)).
Proof.
  intros Hcs.
  pose proof (after_tree_ok hash_string cs Hcs) as Hok.
  set (self := after hash_string cs) in *.
  destruct (nearest_candidates traverse self point) as (cands & Hq & _ & _).
  assert (Hend : snd (nearest traverse point self) = None).
  { unfold nearest. rewrite Hq. apply nearest_loop_ends. intros d Hd.
    destruct (nearest_raw_subset _ _ _ d cands Hq Hd) as (it & Hit & <-).
    unfold tree_ok in Hok. rewrite Forall_forall in Hok.
    destruct (Hok it Hit) as (_ & _ & k & c & pl & Hk & _ & _ & Hin). eauto. }
  split; [done|]. intros Hempty.
  destruct (nearest traverse point self) as [ys e] eqn:Hn. simpl in Hend. subst e.
  f_equal. destruct ys as [|d ys]; [done|].
  destruct (nearest_candidates traverse self point) as (cands' & Hq' & Hs & _).
  rewrite Hn in Hs. destruct (Hs d) as [Hd _]; [by left|].
  destruct (nearest_raw_subset _ _ _ d cands' Hq' Hd) as (it & Hit & _).
  rewrite Hempty in Hit. by apply elem_of_nil in Hit.
Qed.

(** The query that [save], [filter], [files] and [iterate] make. *)
Lemma intersection_bounds (t : index.Index) :
  index.all_valid t ->
  index.intersection traverse (index.bounds t) t =
    match t with
    | [] => Raise (RTreeError "Coordinates must not have minimums more than maximums")
    | _ => Ok (traverse t)
    end.
Proof.
  intros Hv. unfold index.intersection, index.get_coordinate_pointers.
  destruct t as [|it t]; [by rewrite bounds_empty_invalid|].
  rewrite bounds_valid by done. f_equal. apply filter_all, Forall_forall.
  intros x Hx. pose proof (overlaps_bounds _ Hv) as HF. rewrite Forall_forall in HF.
  apply HF. by rewrite <- (traverse_perm (it :: t)).
Qed.

Lemma empty_guard_nothing {A} (self : Polygon_File_Index) (g : gen A) :
  gen_then (empty_guard self) g = g.
Proof.
  unfold empty_guard, yield_from, gen_then.
  destruct (Nat.eqb _ 0); simpl; by destruct g.
Qed.

(** X4. After any calls, [iterate] on an index with entries yields the
    payload of every entry, in the order of the traversal, and ends; on an
    index without entries it raises [RTreeError] instead of ending at
    once: the guard [yield from ()] does not leave the generator. *)
Theorem iterate_contract (cs : list call) :
  let self := after hash_string cs in
  match _rtree self with
  | [] => exists msg, iterate traverse self = ([], Some (RTreeError msg))
  | _ => iterate traverse self = (index.object <$> traverse (_rtree self), None) /\
         fst (iterate traverse self) ≡ₚ index.object <$> _rtree self
  end.
Proof.
  intros self.
  pose proof (after_valid hash_string cs) as Hv. fold self in Hv.
  unfold iterate. rewrite empty_guard_nothing.
  unfold index.intersection_raw. rewrite (intersection_bounds _ Hv).
  destruct (_rtree self) as [|it t]; [by eexists|].
  split; [done|]. simpl. by rewrite (traverse_perm (it :: t)).
Qed.

(** X5. After any calls, [files] on an index with entries yields, for
    every entry in the order of the traversal, the field asked for of its
    payload, and [None] where the payload has no such field; on an index
    without entries it raises [RTreeError]. *)
Theorem files_contract (cs : list call) (what : string) :
  let self := after hash_string cs in
  match _rtree self with
  | [] => exists msg, files_gen traverse what self = ([], Some (RTreeError msg))
  | _ => files_gen traverse what self =
           ((fun it => default (PyValue VNone) (getitem what (index.object it)))
              <$> traverse (_rtree self), None)
  end.
Proof.
  intros self.
  pose proof (after_valid hash_string cs) as Hv. fold self in Hv.
  unfold files_gen. rewrite empty_guard_nothing.
  unfold index.intersection_raw. rewrite (intersection_bounds _ Hv).
  destruct (_rtree self) as [|it t]; [by eexists|].
  by rewrite <- list_fmap_compose.
Qed.

End any_use_queries.

(** ** Filtering and enumerating a consistent index *)

Section filter.

Context {K : geometry.Kernel}.
Variable hash_string : string -> Z.
Variable traverse : index.Index -> index.Index.
Hypothesis traverse_perm : forall t, traverse t ≡ₚ t.

(** [insert] of the payload of an entry of a consistent index makes that
    very entry again. *)
Lemma insert_entry_again (self res : Polygon_File_Index) it k :
  indexed hash_string self it -> item_key it = Some k ->
  _polygons res !! k = None ->
  exists pl, _polygons self !! k = Some pl /\
    let res' := {| _polygons := <[k := pl]> (_polygons res); _rtree := _rtree res ++ [it] |} in
    insert hash_string (index.object it) res = (Ok tt, res') /\
    (consistent hash_string res -> consistent hash_string res').
Proof.
  intros (k' & c & pl & Hk & Hc & Hr & Hp & Hid & Hbb & Hv) Hkey Hfresh.
  unfold item_key in Hkey. rewrite Hk in Hkey. injection Hkey as ->.
  exists pl. split; [done|].
  assert (Hsame : inserted hash_string k pl (index.object it) res
                  = {| _polygons := <[k := pl]> (_polygons res);
                       _rtree := _rtree res ++ [it] |}).
  { unfold inserted. rewrite <- Hbb, <- Hid. by destruct it. }
  simpl. rewrite <- Hsame. split.
  - rewrite (insert_fresh _ (index.object it) k c) by done. by rewrite Hr, <- Hbb, Hv.
  - intros Hres. eapply consistent_inserted; try done. by rewrite <- Hbb.
Qed.

Lemma filter_loop (self : Polygon_File_Index) (how : data -> bool) its
  (res : Polygon_File_Index) :
  Forall (indexed hash_string self) its ->
  NoDup (item_key <$> its) ->
  (forall it k, it ∈ its -> item_key it = Some k -> _polygons res !! k = None) ->
  consistent hash_string res ->
  exists res',
    for_ (index.object <$> its)
      (fun d => if how d then insert hash_string d else ret tt) res = (Ok tt, res') /\
    consistent hash_string res' /\
    _rtree res' = _rtree res ++ List.filter (fun it => how (index.object it)) its /\
    forall k, _polygons res' !! k =
              if decide (Some k ∈ item_key <$> List.filter (fun it => how (index.object it)) its)
              then _polygons self !! k else _polygons res !! k.
Proof.
  intros HF. revert res. induction HF as [|it its Hit HF IH]; intros res Hnd Hfresh Hres.
  - exists res. split; [done|]. split; [done|]. split; [by rewrite app_nil_r|].
    intros k. destruct (decide _) as [E|]; [|done]. by apply elem_of_nil in E.
  - rewrite fmap_cons in Hnd. apply NoDup_cons in Hnd as [Hnew Hnd].
    destruct (indexed_registered _ _ _ Hit) as (k & Hk & _).
    rewrite fmap_cons. cbn [for_ List.filter]. unfold bind at 1.
    destruct (how (index.object it)) eqn:Hhow.
    + destruct (insert_entry_again self res it k Hit Hk) as (pl & Hpl & Hins & Hc').
      { apply (Hfresh it); [by left|done]. }
      simpl in Hins, Hc'. rewrite Hins.
      destruct (IH {| _polygons := <[k := pl]> (_polygons res); _rtree := _rtree res ++ [it] |})
        as (res' & Hrun & Hcr & Htree & Hreg); [done| |by apply Hc'|].
      { intros it' k' Hin' Hk'. simpl. rewrite lookup_insert_ne.
        - apply (Hfresh it'); [by right|done].
        - intros ->. apply Hnew. rewrite Hk, <- Hk'. by apply list_elem_of_fmap_2. }
      exists res'. split; [done|]. split; [done|]. split.
      * rewrite Htree. simpl. by rewrite <- app_assoc.
      * intros k'. rewrite Hreg, fmap_cons, Hk. simpl.
        destruct (decide (k = k')) as [<-|Hne].
        -- rewrite lookup_insert_eq, Hpl.
           rewrite (decide_True (P := Some k ∈ Some k :: _)) by by left.
           by case_decide.
        -- rewrite lookup_insert_ne by done.
           case_decide as E1; case_decide as E2; try done.
           ++ exfalso. apply E2. by right.
           ++ apply elem_of_cons in E2 as [E2|E2]; [congruence|done].
    + unfold ret at 1. destruct (IH res) as (res' & Hrun & Hcr & Htree & Hreg); [done| |done|].
      { intros it' k' Hin'. apply Hfresh. by right. }
      by exists res'.
Qed.

(** The index [filter] returns for a consistent index: the entries the
    predicate keeps, as they are, and their keys with their polygons. *)
Lemma filter_result (how : data -> bool) (self : Polygon_File_Index) :
  consistent hash_string self ->
  exists res,
    filter hash_string traverse how self = Ok res /\
    consistent hash_string res /\
    _rtree res = List.filter (fun it => how (index.object it)) (traverse (_rtree self)) /\
    forall k, _polygons res !! k =
              if decide (Some k ∈ item_key <$> _rtree res)
              then _polygons self !! k else None.
Proof.
  intros Hcons. unfold filter.
  rewrite (get_size_length _ (consistent_valid _ _ Hcons)).
  destruct (_rtree self) as [|it0 t0] eqn:Ht.
  { exists __init__. simpl. split; [done|]. split; [apply consistent_init|].
    pose proof (traverse_perm []) as Hnil. apply Permutation_nil_r in Hnil.
    rewrite Hnil. split; [done|]. intros k. apply lookup_empty. }
  rewrite <- Ht. replace (Nat.eqb (length (_rtree self)) 0) with false by (by rewrite Ht).
  assert (Hq : index.intersection traverse (index.bounds (_rtree self)) (_rtree self)
               = Ok (traverse (_rtree self))).
  { rewrite (intersection_bounds traverse traverse_perm _ (consistent_valid _ _ Hcons)).
    by rewrite Ht. }
  unfold index.intersection_raw. rewrite Hq.
  destruct Hcons as [HF HR HN HC].
  destruct (filter_loop self how (traverse (_rtree self)) __init__)
    as (res & Hrun & Hcr & Htree & Hreg).
  - rewrite Forall_forall in *. intros it Hit. apply HF.
    by rewrite <- (traverse_perm (_rtree self)).
  - by rewrite (traverse_perm (_rtree self)).
  - intros it k _ _. apply lookup_empty.
  - apply consistent_init.
  - exists res. rewrite Hrun. split; [done|]. split; [done|].
    simpl in Htree. split; [done|].
    intros k. rewrite Hreg, Htree. simpl. case_decide; [done|apply lookup_empty].
Qed.

(** X6. [filter] of a consistent index returns a consistent index that
    holds exactly the entries whose payload the predicate accepts,
    unchanged, in the order of the traversal, and registers their keys
    with the polygons they had. *)
Theorem filter_contract (how : data -> bool) (self : Polygon_File_Index) :
  consistent hash_string self ->
  exists res,
    filter hash_string traverse how self = Ok res /\
    _rtree res = List.filter (fun it => how (index.object it)) (traverse (_rtree self)) /\
    (forall k pl, _polygons res !! k = Some pl <->
                  _polygons self !! k = Some pl /\
                  exists it, it ∈ _rtree self /\ item_key it = Some k /\
                             how (index.object it) = true) /\
    consistent hash_string res.
Proof.
  intros Hcons. destruct (filter_result how self Hcons) as (res & Hf & Hcr & Htree & Hreg).
  exists res. split; [done|]. split; [done|]. split; [|done].
  assert (Hmem : forall it, it ∈ _rtree res <->
                   it ∈ _rtree self /\ how (index.object it) = true).
  { intros it. rewrite Htree, list_elem_of_In, filter_In, <- list_elem_of_In.
    by rewrite (traverse_perm (_rtree self)). }
  intros k pl. rewrite Hreg. case_decide as E.
  - split; [|by intros [? _]]. intros Hpl. split; [done|].
    apply list_elem_of_fmap in E as (it & Hk & Hit). apply Hmem in Hit as [Hit Hhow].
    by exists it.
  - split; [done|]. intros (_ & it & Hit & Hk & Hhow). exfalso. apply E.
    rewrite <- Hk. apply list_elem_of_fmap_2. by apply Hmem.
Qed.

(** X7. With the predicate that accepts everything, its default, [filter]
    copies a consistent index: the same registry, the same entries, the
    same size. *)
Theorem filter_default_copies (self : Polygon_File_Index) :
  consistent hash_string self ->
  exists res,
    filter hash_string traverse (fun _ => true) self = Ok res /\
    _polygons res = _polygons self /\
    _rtree res ≡ₚ _rtree self /\
    size res = size self.
Proof.
  intros Hcons.
  destruct (filter_result (fun _ => true) self Hcons) as (res & Hf & Hcr & Htree & Hreg).
  exists res. split; [done|].
  rewrite filter_all in Htree by (apply Forall_forall; done).
  assert (Hperm : _rtree res ≡ₚ _rtree self) by (rewrite Htree; apply traverse_perm).
  split; [|split; [done|]].
  - apply map_eq. intros k. rewrite Hreg. case_decide as E; [done|].
    destruct (_polygons self !! k) as [pl|] eqn:Hpl; [|done].
    exfalso. apply E. destruct (registry_in_tree _ _ Hcons k) as (it & Hit & Hk); [eauto|].
    rewrite <- Hk. apply list_elem_of_fmap_2. by rewrite Hperm.
  - unfold size.
    rewrite !get_size_length by (eapply consistent_valid; done). by rewrite Hperm.
Qed.

Lemma NoDup_omap {A B} (f : A -> option B) (l : list A) :
  NoDup (f <$> l) -> NoDup (omap f l).
Proof.
  induction l as [|x l IH]; [constructor|].
  rewrite fmap_cons. intros [Hx Hl]%NoDup_cons. simpl.
  destruct (f x) as [y|] eqn:Hy; [|by apply IH].
  apply NoDup_cons. split; [|by apply IH].
  intros (x' & Hx' & Hfx')%list_elem_of_omap. apply Hx. rewrite <- Hfx'.
  by apply list_elem_of_fmap_2.
Qed.

(** The keys of the entries of a consistent index are the registered
    keys, each once. *)
Lemma tree_keys (self : Polygon_File_Index) :
  consistent hash_string self ->
  omap item_key (_rtree self) ≡ₚ elements (dom (_polygons self)).
Proof.
  intros [HF HR HN HC]. apply NoDup_Permutation.
  - by apply NoDup_omap.
  - apply NoDup_elements.
  - intros k. rewrite list_elem_of_omap, elem_of_elements, elem_of_dom. split.
    + intros (it & Hit & Hk). rewrite Forall_forall in HF.
      destruct (HF it Hit) as (k' & c & pl & Hk' & _ & _ & Hp & _).
      unfold item_key in Hk. rewrite Hk' in Hk. injection Hk as <-. eauto.
    + intros Hin. destruct (HR k Hin) as (it & Hit & Hk). eauto.
Qed.

(** X8. [files] with its default field, on a consistent index with
    entries, yields the registered keys, each once, and ends. *)
Theorem files_lists_keys (self : Polygon_File_Index) :
  consistent hash_string self -> _rtree self <> [] ->
  exists ys,
    files_gen traverse "file" self = (ys, None) /\
    ys ≡ₚ (fun k => PyValue (VStr k)) <$> elements (dom (_polygons self)).
Proof.
  intros Hcons Hne. eexists. split.
  - unfold files_gen. rewrite empty_guard_nothing. unfold index.intersection_raw.
    rewrite (intersection_bounds traverse traverse_perm _ (consistent_valid _ _ Hcons)).
    destruct (_rtree self) eqn:Ht; [done|]. rewrite <- Ht. reflexivity.
  - rewrite <- (tree_keys self Hcons), <- list_fmap_compose.
    rewrite (traverse_perm (_rtree self)).
    destruct Hcons as [HF _ _ _]. clear Hne.
    induction HF as [|it t Hit HF IH]; [done|].
    destruct Hit as (k & c & pl & Hk & _). rewrite fmap_cons. simpl.
    unfold item_key at 1. rewrite Hk. simpl. unfold getitem at 1.
    rewrite decide_True by done. rewrite Hk. simpl. by rewrite IH.
Qed.

End filter.

(** ** More on the mutations *)

Section more_mutation.

Context {K : geometry.Kernel}.
Variable hash_string : string -> Z.

(** X9. After any successful calls of [insert] and [update] on a fresh
    index (no two of whose keys share an identifier in the tree), every
    entry of the tree is current: its identifier is the digest of its key
    as a signed 64-bit integer, and its box is the box of the polygon
    registered for the key, which is the polygon built from the
    coordinates of its payload. *)
Theorem entries_are_current ops st :
  collision_free hash_string (keys ops) ->
  run hash_string ops __init__ = (Ok tt, st) ->
  forall it, it ∈ _rtree st ->
    exists k c pl,
      item_key it = Some k /\ polygon (index.object it) = Some c /\
      geometry.Polygon c = Ok pl /\
      _polygons st !! k = Some pl /\
      index.id it = index.c_int64 (hash_string k) /\
      (- 2 ^ 63 <= index.id it < 2 ^ 63)%Z /\
      index.bbox it = geometry.bounds pl.
Proof.
  intros Hcoll Hrun it Hit.
  destruct (reachable_consistent _ ops st Hcoll Hrun) as [[HF _ _ _] _].
  rewrite Forall_forall in HF.
  destruct (HF it Hit) as (k & c & pl & Hk & Hc & Hr & Hp & Hid & Hbb & _).
  exists k, c, pl. repeat (split; [done|]). split; [|done].
  rewrite Hid. apply c_int64_range.
Qed.

(** X10. [update] repeated with the same record answers [false] the second
    time and changes nothing, provided the kernel finds the record's
    polygon approximately equal to itself. *)
Theorem update_twice (d : data) c npl b (self self' : Polygon_File_Index) :
  polygon d = Some c ->
  geometry.Polygon c = Ok npl ->
  geometry.almost_equals npl npl = true ->
  update hash_string d self = (Ok b, self') ->
  update hash_string d self' = (Ok false, self').
Proof.
  intros Hc Hr Hrefl Hupd.
  apply update_ok_inv in Hupd
    as (k & c' & npl' & Hk & Hc' & Hr' &
        [(Hnew & _ & Hv & ->)|(pl & Hpl & [(Heq & _ & ->)|(_ & _ & _ & _ & ->)])]).
  all: rewrite Hc in Hc'; injection Hc' as <-.
  all: rewrite Hr in Hr'; injection Hr' as <-.
  - apply (update_unchanged _ d k c npl npl); try done.
    apply lookup_insert_eq.
  - by apply (update_unchanged _ d k c pl npl).
  - apply (update_unchanged _ d k c npl npl); try done.
    apply lookup_insert_eq.
Qed.

(** X11. [insert] registers the key before it inserts into the tree.  When
    the tree rejects the box of the polygon, [insert] raises with the key
    registered and no entry for it.  From then on [insert] of that key
    does nothing, and [update] of that key with a polygon not
    approximately equal raises from the tree's [delete] and changes
    nothing: the key has no entry and gets none. *)
Theorem insert_is_not_atomic (d : data) k c pl (self : Polygon_File_Index) :
  file d = Some k -> polygon d = Some c ->
  _polygons self !! k = None ->
  geometry.Polygon c = Ok pl ->
  index.valid (geometry.bounds pl) = false ->
  exists msg self',
    insert hash_string d self = (Raise (RTreeError msg), self') /\
    _polygons self' = <[k := pl]> (_polygons self) /\
    _rtree self' = _rtree self /\
    (forall d' c' pl', file d' = Some k -> polygon d' = Some c' ->
       insert hash_string d' self' = (Ok tt, self') /\
       (geometry.Polygon c' = Ok pl' ->
        geometry.almost_equals pl pl' = false ->
        exists msg', update hash_string d' self' = (Raise (RTreeError msg'), self'))).
Proof.
  intros Hk Hc Hnew Hr Hv. eexists _, (set_polygons <[k := pl]> self).
  assert (Hreg : _polygons (set_polygons <[k := pl]> self) !! k = Some pl)
    by apply lookup_insert_eq.
  split; [|split; [done|split; [done|]]].
  - rewrite (insert_fresh _ d k c) by done. by rewrite Hr, Hv.
  - intros d' c' pl' Hk' Hc'. split.
    + apply (insert_present _ d' k c'); eauto.
    + intros Hr' Hne. eexists.
      by rewrite (update_old_box _ d' k c' pl pl').
Qed.

End more_mutation.

(** ** More on persistence *)

Section more_persistence.

Context {K : geometry.Kernel}.

Lemma for_app {S A} (xs ys : list A) (body : A -> M S unit) (s : S) :
  for_ (xs ++ ys) body s = (for_ xs body ;; for_ ys body) s.
Proof.
  revert s. induction xs as [|x xs IH]; intros s; [done|].
  simpl. unfold bind. destruct (body x s) as [[[]|e] s1]; [|done].
  rewrite IH. done.
Qed.

(** X12. [load] is a pass over the list in order: loading a file equals
    loading, one after the other, two files that hold its first and its
    second part, the second only if the first load returned. *)
Theorem load_in_parts (fs : files) fn f1 f2 (xs ys : list entry)
  (self : Polygon_File_Index) :
  fs !! fn = Some (xs ++ ys) -> fs !! f1 = Some xs -> fs !! f2 = Some ys ->
  load fs fn self = (load fs f1 ;; load fs f2) self.
Proof.
  intros Hfn H1 H2. unfold load, bind. rewrite Hfn, H1, for_app. unfold bind.
  destruct (for_ xs load_body self) as [[[]|e] s1]; [|done]. by rewrite H2.
Qed.

(** X13. [load] is not atomic.  When an entry whose payload passes the
    check lacks ['id'] or ['bbox'], or carries a box the tree rejects,
    [load] raises there: the entries before it stay loaded, the entry and
    those after it are not.  When the kernel builds no polygon from its
    coordinates, [load] raises what the kernel raised with the entry in
    the tree and its key not registered by it. *)
Theorem load_stops_at_bad_entry (fs : files) fn (xs ys : list entry) (x : entry)
  o k c (self s1 : Polygon_File_Index) :
  fs !! fn = Some (xs ++ x :: ys) ->
  for_ xs load_body self = (Ok tt, s1) ->
  e_object x = Some o -> file o = Some k -> polygon o = Some c ->
  match e_id x, e_bbox x with
  | None, _ => load fs fn self = (Raise (KeyError "id"), s1)
  | Some _, None => load fs fn self = (Raise (KeyError "bbox"), s1)
  | Some i, Some b =>
      if index.valid b
      then match geometry.Polygon c with
           | Ok pl => load fs fn self = for_ ys load_body (appended i b o k pl s1)
           | Raise e =>
               load fs fn self =
                 (Raise e, {| _polygons := _polygons s1;
                              _rtree := _rtree s1 ++ [index.mk_item (index.c_int64 i) b o] |})
           end
      else exists msg, load fs fn self = (Raise (RTreeError msg), s1)
  end.
Proof.
  intros Hfn Hxs Ho Hk Hc.
  assert (Hload : load fs fn self =
                  match load_body x s1 with
                  | (Ok _, s2) => for_ ys load_body s2
                  | (Raise e, s2) => (Raise e, s2)
                  end).
  { unfold load. rewrite Hfn, for_app. unfold bind at 1. by rewrite Hxs. }
  rewrite Hload. clear Hload.
  destruct (e_id x) as [i|] eqn:Hi.
  - destruct (e_bbox x) as [b|] eqn:Hb.
    + destruct (index.valid b) eqn:Hv.
      * destruct (geometry.Polygon c) as [pl|e] eqn:Hr.
        -- by rewrite (load_body_accept x i b o k c pl).
        -- by rewrite (load_body_no_ring x i b o k c e).
      * eexists. unfold load_body, bind, try_except, lift, ret, modify, rtree_call,
          getitem_object, getitem_id, getitem_bbox, _check_data, index.insert,
          index.get_coordinate_pointers.
        rewrite Ho, Hk, Hc, Hi, Hb. cbn [fst snd]. rewrite Hv. reflexivity.
    + unfold load_body, bind, try_except, lift, ret, getitem_object, getitem_id,
        getitem_bbox, _check_data.
      by rewrite Ho, Hk, Hc, Hi, Hb.
  - unfold load_body, bind, try_except, lift, ret, getitem_object, getitem_id, _check_data.
    by rewrite Ho, Hk, Hc, Hi.
Qed.

End more_persistence.

(** ** More on the queries *)

Section more_queries.

Context {K : geometry.Kernel}.
Variable hash_string : string -> Z.
Variable traverse : index.Index -> index.Index.
Hypothesis traverse_perm : forall t, traverse t ≡ₚ t.

(** X14. In a consistent index in which the box of every entry whose
    polygon meets the point holds the point, [nearest] ends without
    raising and yields exactly the stored records whose polygon meets the
    point: such an entry is at distance zero, and the tree returns every
    entry as near as the nearest. *)
Theorem nearest_finds_containing (self : Polygon_File_Index) (point : coord) :
  consistent hash_string self ->
  (forall it, it ∈ _rtree self -> contains self point (index.object it) ->
              index.overlaps (index.of_point point) (index.bbox it) = true) ->
  snd (nearest traverse point self) = None /\
  forall d, d ∈ fst (nearest traverse point self) <->
            d ∈ index.object <$> _rtree self /\ contains self point d.
Proof.
  intros Hcons Hbox.
  destruct (nearest_candidates traverse self point) as (cands & Hq & Hsound & Hcomplete).
  assert (HF := tree_in_registry _ _ Hcons). rewrite Forall_forall in HF.
  assert (Hend : snd (nearest traverse point self) = None).
  { unfold nearest. rewrite Hq. apply nearest_loop_ends. intros d Hd.
    destruct (nearest_raw_subset traverse traverse_perm _ _ _ d cands Hq Hd)
      as (it & Hit & <-).
    destruct (HF it Hit) as (k & c & pl & Hk & _ & _ & Hp & _). eauto. }
  split; [done|]. intros d. split.
  - intros Hd. destruct (Hsound d Hd) as [Hcand Hc]. split; [|done].
    destruct (nearest_raw_subset traverse traverse_perm _ _ _ d cands Hq Hcand)
      as (it & Hit & <-).
    by apply list_elem_of_fmap_2.
  - intros [(it & -> & Hit)%list_elem_of_fmap Hc].
    destruct (nearest_raw_overlapping traverse traverse_perm
                (index.of_point point) 1 (_rtree self) it)
      as (cands' & Hq' & Hcand); [apply of_point_valid | done | by apply Hbox |].
    rewrite Hq in Hq'. injection Hq' as <-. by apply Hcomplete.
Qed.

Lemma insert_raises_collaborators (d : data) (res : Polygon_File_Index) :
  is_Some (file d) -> is_Some (polygon d) ->
  fst (insert hash_string d res) = Ok tt \/
  exists e, fst (insert hash_string d res) = Raise e /\ raised_by_collaborator e.
Proof.
  intros [k Hk] [c Hc]. destruct (_polygons res !! k) as [pl|] eqn:Hpl.
  - left. by rewrite (insert_present _ d k c) by eauto.
  - rewrite (insert_fresh _ d k c) by done.
    destruct (geometry.Polygon c) as [pl|e] eqn:Hr.
    + destruct (index.valid _); [by left|right]. eexists. split; [done|]. left. by eexists.
    + right. exists e. split; [done|]. right. left. by exists c.
Qed.

Lemma intersect_body_errors (self : Polygon_File_Index) query d
  (res : Polygon_File_Index) :
  (exists k, file d = Some k /\ is_Some (_polygons self !! k)) ->
  fst (intersect_body hash_string self query d res) = Ok tt \/
  exists e, fst (intersect_body hash_string self query d res) = Raise e /\
            raised_by_collaborator e.
Proof.
  intros (k & Hk & [pl Hpl]).
  unfold intersect_body, bind, lift, ret, getitem_file. rewrite Hk, Hpl.
  destruct (geometry.intersection query pl) as [g|e] eqn:Hg.
  2:{ right. exists e. split; [done|]. right. right. by exists query, pl. }
  destruct (geometry.is_empty _); [by left|].
  destruct (geometry.as_Polygon _) as [sp|]; [|by left].
  apply insert_raises_collaborators; simpl; eauto.
Qed.

Lemma intersect_loop_errors (self : Polygon_File_Index) query cands
  (res : Polygon_File_Index) :
  (forall d, d ∈ cands -> exists k, file d = Some k /\ is_Some (_polygons self !! k)) ->
  fst (for_ cands (intersect_body hash_string self query) res) = Ok tt \/
  exists e,
    fst (for_ cands (intersect_body hash_string self query) res) = Raise e /\
    raised_by_collaborator e.
Proof.
  revert res. induction cands as [|d cands IH]; intros res Hreg; [by left|].
  simpl. unfold bind.
  destruct (intersect_body_errors self query d res) as [H|(e0 & H & He)];
    [apply Hreg; by left| |].
  - destruct (intersect_body hash_string self query d res) as [[[]|e] s]; [|done].
    cbv beta iota. apply IH. intros d' Hd'. apply Hreg. by right.
  - destruct (intersect_body hash_string self query d res) as [[[]|e] s]; [done|].
    right. by exists e0.
Qed.

(** X15. After calls that load no coordinates from which the kernel
    builds no polygon, [intersect] returns an index or raises what a
    collaborator raised: the tree's [RTreeError], or the exception of the
    kernel's constructor or of its [intersection].  It raises nothing of
    its own: no [KeyError] on a payload or on the registry, and not the
    [RuntimeError] of the check. *)
Theorem intersect_raises_collaborators_errors (cs : list call) (coords : list coord) :
  Forall rings_ok cs ->
  (exists res, intersect hash_string traverse coords (after hash_string cs) = Ok res) \/
  (exists e, intersect hash_string traverse coords (after hash_string cs) = Raise e /\
             raised_by_collaborator e).
Proof.
  intros Hcs.
  pose proof (after_tree_ok hash_string cs Hcs) as Hok.
  set (self := after hash_string cs) in *. unfold intersect.
  destruct (geometry.Polygon coords) as [q|e] eqn:Hq.
  2:{ right. exists e. split; [done|]. right. left. by exists coords. }
  destruct (Nat.eqb _ 0); [left; by eexists|].
  unfold index.intersection_raw, index.intersection, index.get_coordinate_pointers.
  destruct (index.valid _).
  2:{ right. eexists. split; [done|]. left. by eexists. }
  match goal with |- context [for_ ?l _ _] => set (cands := l) end.
  destruct (intersect_loop_errors self q cands __init__)
    as [H|(e & H & He)].
  - intros d (it & -> & Hit)%list_elem_of_fmap.
    apply list_elem_of_In, filter_In in Hit as [Hit _]. apply list_elem_of_In in Hit.
    rewrite (traverse_perm (_rtree self)) in Hit.
    unfold tree_ok in Hok. rewrite Forall_forall in Hok.
    destruct (Hok it Hit) as (_ & _ & k & c & pl & Hk & _ & _ & Hin). eauto.
  - left. destruct (for_ cands _ __init__) as [[[]|e] s]; [by eexists|done].
  - right. destruct (for_ cands _ __init__) as [[[]|e'] s]; [done|].
    simpl in H. injection H as ->. by exists e.
Qed.

End more_queries.

(** ** The further properties on concrete inputs *)

(** A file of the planar kernel whose rings have no point or three and
    more loads no coordinates that make no polygon. *)
Lemma planar_rings_ok (fs : files) fn :
  match fs !! fn with
  | Some xs =>
      forallb (fun x => match entry_coords x with
                        | Some c => match planar.make c with Ok _ => true | Raise _ => false end
                        | None => true
                        end) xs
  | None => true
  end = true ->
  rings_ok (K := planar.kernel) (Call_load fs fn).
Proof.
  intros H xs x o c Hfs Hx Ho Hc. rewrite Hfs in H.
  rewrite forallb_forall in H. specialize (H x). unfold entry_coords in H.
  rewrite Ho, Hc in H. apply list_elem_of_In in Hx. specialize (H Hx).
  simpl. destruct (planar.make c) as [pl|e]; [by exists pl|done].
Qed.

Lemma example_calls_rings_ok : Forall (rings_ok (K := planar.kernel)) example_calls.
Proof.
  unfold example_calls. repeat constructor.
  apply planar_rings_ok. vm_compute. reflexivity.
Qed.

Lemma calls_keep_entries_registered_witness :
  let c := Call_update record_B in
  (Forall (rings_ok (K := planar.kernel)) example_calls /\
   rings_ok (K := planar.kernel) c) /\
  tree_ok (after (K := planar.kernel) planar.numbering example_calls) /\
  grows (after planar.numbering example_calls)
        (after planar.numbering (example_calls ++ [c])).
Proof.
  intros c. split; [split; [apply example_calls_rings_ok | exact I]|].
  exact (calls_keep_entries_registered (K := planar.kernel) planar.numbering
           example_calls c example_calls_rings_ok I).
Defined.

Lemma nearest_never_raises_witness :
  let self := after (K := planar.kernel) planar.numbering example_calls in
  ((forall t, planar.in_order t ≡ₚ t) /\
   Forall (rings_ok (K := planar.kernel)) example_calls) /\
  snd (nearest planar.in_order (7, 7) self) = None /\
  (_rtree self = [] -> nearest planar.in_order (7, 7) self = ([], None)).
Proof.
  intros self. split; [split; [apply in_order_perm | apply example_calls_rings_ok]|].
  exact (nearest_never_raises (K := planar.kernel) planar.numbering planar.in_order
           in_order_perm example_calls (7, 7) example_calls_rings_ok).
Defined.

Lemma iterate_contract_witness :
  (forall t, planar.in_order t ≡ₚ t) /\
  (let self := after (K := planar.kernel) planar.numbering example_calls in
   iterate planar.in_order self = (index.object <$> planar.in_order (_rtree self), None) /\
   fst (iterate planar.in_order self) ≡ₚ index.object <$> _rtree self) /\
  (let self := after (K := planar.kernel) planar.numbering [] in
   exists msg, iterate planar.in_order self = ([], Some (RTreeError msg))).
Proof.
  split; [apply in_order_perm|]. split.
  - exact (iterate_contract (K := planar.kernel) planar.numbering planar.in_order
             in_order_perm example_calls).
  - exact (iterate_contract (K := planar.kernel) planar.numbering planar.in_order
             in_order_perm []).
Defined.

Lemma files_contract_witness :
  (forall t, planar.in_order t ≡ₚ t) /\
  (let self := after (K := planar.kernel) planar.numbering example_calls in
   files_gen planar.in_order "owner" self =
     ((fun it => default (PyValue VNone) (getitem "owner" (index.object it)))
        <$> planar.in_order (_rtree self), None)) /\
  (let self := after (K := planar.kernel) planar.numbering [] in
   exists msg, files_gen planar.in_order "file" self = ([], Some (RTreeError msg))).
Proof.
  split; [apply in_order_perm|]. split.
  - exact (files_contract (K := planar.kernel) planar.numbering planar.in_order
             in_order_perm example_calls "owner").
  - exact (files_contract (K := planar.kernel) planar.numbering planar.in_order
             in_order_perm [] "file").
Defined.

Lemma filter_contract_witness :
  let self := index_of example_ops in
  let how := fun d : data => bool_decide (file d = Some "A") in
  ((forall t, planar.in_order t ≡ₚ t) /\ consistent planar.numbering self) /\
  exists res,
    filter planar.numbering planar.in_order how self = Ok res /\
    _rtree res = List.filter (fun it => how (index.object it)) (planar.in_order (_rtree self)) /\
    (forall k pl, _polygons res !! k = Some pl <->
                  _polygons self !! k = Some pl /\
                  exists it, it ∈ _rtree self /\ item_key it = Some k /\
                             how (index.object it) = true) /\
    consistent planar.numbering res.
Proof.
  intros self how.
  assert (Hc : consistent planar.numbering self).
  { apply index_of_consistent; vm_compute; reflexivity. }
  split; [split; [apply in_order_perm|done]|].
  exact (filter_contract planar.numbering planar.in_order in_order_perm how self Hc).
Defined.

Lemma filter_default_copies_witness :
  let self := index_of example_ops in
  ((forall t, planar.in_order t ≡ₚ t) /\ consistent planar.numbering self) /\
  exists res,
    filter planar.numbering planar.in_order (fun _ => true) self = Ok res /\
    _polygons res = _polygons self /\
    _rtree res ≡ₚ _rtree self /\
    size res = size self.
Proof.
  intros self.
  assert (Hc : consistent planar.numbering self).
  { apply index_of_consistent; vm_compute; reflexivity. }
  split; [split; [apply in_order_perm|done]|].
  exact (filter_default_copies planar.numbering planar.in_order in_order_perm self Hc).
Defined.

Lemma files_lists_keys_witness :
  let self := index_of example_ops in
  ((forall t, planar.in_order t ≡ₚ t) /\ consistent planar.numbering self /\
   _rtree self <> []) /\
  exists ys,
    files_gen planar.in_order "file" self = (ys, None) /\
    ys ≡ₚ (fun k => PyValue (VStr k)) <$> elements (dom (_polygons self)).
Proof.
  intros self.
  assert (Hc : consistent planar.numbering self).
  { apply index_of_consistent; vm_compute; reflexivity. }
  assert (Hne : _rtree self <> []) by (vm_compute; discriminate).
  split; [split; [apply in_order_perm|done]|].
  exact (files_lists_keys planar.numbering planar.in_order in_order_perm self Hc Hne).
Defined.

Lemma entries_are_current_witness :
  collision_free planar.numbering (keys example_ops) /\
  run planar.numbering example_ops __init__ = (Ok tt, index_of example_ops) /\
  forall it, it ∈ _rtree (index_of example_ops) ->
    exists k c pl,
      item_key it = Some k /\ polygon (index.object it) = Some c /\
      geometry.Polygon c = Ok pl /\
      _polygons (index_of example_ops) !! k = Some pl /\
      index.id it = index.c_int64 (planar.numbering k) /\
      (- 2 ^ 63 <= index.id it < 2 ^ 63)%Z /\
      index.bbox it = geometry.bounds pl.
Proof.
  assert (Hrun : run planar.numbering example_ops __init__ = (Ok tt, index_of example_ops)).
  { apply index_of_run. vm_compute. reflexivity. }
  assert (Hcf : collision_free planar.numbering (keys example_ops)).
  { apply collision_freeb_spec. vm_compute. reflexivity. }
  split; [exact Hcf|]. split; [exact Hrun|].
  exact (entries_are_current planar.numbering example_ops (index_of example_ops)
           Hcf Hrun).
Defined.

Lemma update_twice_witness :
  let self := index_of [Insert record_A] in
  let d := record "A" (square 0 0 10 12) in
  let npl : @geometry.polygon_t planar.kernel := planar.close (square 0 0 10 12) in
  let self' := snd (update planar.numbering d self) in
  (polygon d = Some (square 0 0 10 12) /\
   geometry.Polygon (square 0 0 10 12) = Ok npl /\
   geometry.almost_equals npl npl = true /\
   update planar.numbering d self = (Ok true, self')) /\
  update planar.numbering d self' = (Ok false, self').
Proof.
  intros self d npl self'.
  assert (Hupd : update planar.numbering d self = (Ok true, self')).
  { unfold self'. destruct (update planar.numbering d self) as [r s] eqn:E.
    assert (Hr : fst (update planar.numbering d self) = Ok true) by (vm_compute; reflexivity).
    rewrite E in Hr. simpl in Hr. by rewrite Hr. }
  assert (Hr : geometry.Polygon (square 0 0 10 12) = Ok npl) by (vm_compute; reflexivity).
  assert (Heq : geometry.almost_equals npl npl = true) by (vm_compute; reflexivity).
  split; [done|].
  exact (update_twice planar.numbering d (square 0 0 10 12) npl true self self'
           eq_refl Hr Heq Hupd).
Defined.

Lemma insert_is_not_atomic_witness :
  let self : @Polygon_File_Index planar_boxless := __init__ in
  let d := record "E" [] in
  let pl : @geometry.polygon_t planar_boxless := [] in
  (file d = Some "E" /\ polygon d = Some [] /\ _polygons self !! "E" = None /\
   @geometry.Polygon planar_boxless [] = Ok pl /\
   index.valid (@geometry.bounds planar_boxless pl) = false) /\
  exists msg self',
    insert planar.numbering d self = (Raise (RTreeError msg), self') /\
    _polygons self' = <[ "E" := pl ]> (_polygons self) /\
    _rtree self' = _rtree self /\
    (forall d' c' pl', file d' = Some "E" -> polygon d' = Some c' ->
       insert planar.numbering d' self' = (Ok tt, self') /\
       (geometry.Polygon c' = Ok pl' ->
        geometry.almost_equals pl pl' = false ->
        exists msg', update planar.numbering d' self' = (Raise (RTreeError msg'), self'))).
Proof.
  intros self d pl. split; [done|].
  exact (insert_is_not_atomic (K := planar_boxless) planar.numbering d "E" [] pl self
           eq_refl eq_refl eq_refl eq_refl eq_refl).
Defined.

Lemma load_in_parts_witness :
  let self : @Polygon_File_Index planar.kernel := __init__ in
  (example_files !! "index.json" = Some ([entry_C] ++ [entry_no_id; entry_A]) /\
   example_files !! "first.json" = Some [entry_C] /\
   example_files !! "second.json" = Some [entry_no_id; entry_A]) /\
  load example_files "index.json" self
  = (load example_files "first.json" ;; load example_files "second.json") self.
Proof.
  intros self.
  assert (H0 : example_files !! "index.json" = Some ([entry_C] ++ [entry_no_id; entry_A]))
    by (vm_compute; reflexivity).
  assert (H1 : example_files !! "first.json" = Some [entry_C]) by (vm_compute; reflexivity).
  assert (H2 : example_files !! "second.json" = Some [entry_no_id; entry_A])
    by (vm_compute; reflexivity).
  split; [done|].
  exact (load_in_parts example_files "index.json" "first.json" "second.json"
           [entry_C] [entry_no_id; entry_A] self H0 H1 H2).
Defined.

Lemma load_stops_at_bad_entry_witness :
  let self : @Polygon_File_Index planar.kernel := __init__ in
  let s1 := appended 9 {| minx := 5; miny := 5; maxx := 20; maxy := 20 |}
              record_C "C" (planar.close (square 5 5 20 20)) self in
  (example_files !! "index.json" = Some ([entry_C] ++ entry_no_id :: [entry_A]) /\
   for_ [entry_C] load_body self = (Ok tt, s1) /\
   e_object entry_no_id = Some record_B /\
   file record_B = Some "B" /\ polygon record_B = Some (square 20 20 30 30)) /\
  load example_files "index.json" self = (Raise (KeyError "id"), s1).
Proof.
  intros self s1.
  assert (H0 : example_files !! "index.json" = Some ([entry_C] ++ entry_no_id :: [entry_A]))
    by (vm_compute; reflexivity).
  assert (H1 : for_ [entry_C] load_body self = (Ok tt, s1)).
  { simpl. unfold bind.
    by rewrite (load_body_accept (K := planar.kernel) entry_C 9
                  {| minx := 5; miny := 5; maxx := 20; maxy := 20 |}
                  record_C "C" (square 5 5 20 20) (planar.close (square 5 5 20 20))). }
  split; [done|].
  exact (load_stops_at_bad_entry example_files "index.json" [entry_C] [entry_A]
           entry_no_id record_B "B" (square 20 20 30 30) self s1
           H0 H1 eq_refl eq_refl eq_refl).
Defined.

Lemma nearest_finds_containing_witness :
  let self := index_of [Insert record_A; Insert record_C; Insert record_B] in
  ((forall t, planar.in_order t ≡ₚ t) /\
   consistent planar.numbering self /\
   forall it, it ∈ _rtree self -> contains self (7, 7) (index.object it) ->
              index.overlaps (index.of_point (7, 7)) (index.bbox it) = true) /\
  snd (nearest planar.in_order (7, 7) self) = None /\
  forall d, d ∈ fst (nearest planar.in_order (7, 7) self) <->
            d ∈ index.object <$> _rtree self /\ contains self (7, 7) d.
Proof.
  intros self.
  assert (Hc : consistent planar.numbering self).
  { apply index_of_consistent; vm_compute; reflexivity. }
  assert (Hbox : forall it, it ∈ _rtree self -> contains self (7, 7) (index.object it) ->
                   index.overlaps (index.of_point (7, 7)) (index.bbox it) = true).
  { intros it Hit Hmeet. apply list_elem_of_In in Hit. vm_compute in Hit.
    destruct Hit as [<-|[<-|[<-|[]]]].
    - vm_compute. reflexivity.
    - vm_compute. reflexivity.
    - exfalso. destruct Hmeet as (k & pl & Hk & Hpl & Hm).
      vm_compute in Hk. injection Hk as <-.
      vm_compute in Hpl. injection Hpl as <-.
      vm_compute in Hm. discriminate. }
  split; [split; [apply in_order_perm|done]|].
  exact (nearest_finds_containing planar.numbering planar.in_order in_order_perm
           self (7, 7) Hc Hbox).
Defined.

Lemma intersect_raises_collaborators_errors_witness :
  let self := after (K := planar.kernel) planar.numbering example_calls in
  ((forall t, planar.in_order t ≡ₚ t) /\
   Forall (rings_ok (K := planar.kernel)) example_calls) /\
  ((exists res, intersect planar.numbering planar.in_order (square 5 5 15 15) self = Ok res) \/
   (exists e, intersect planar.numbering planar.in_order (square 5 5 15 15) self = Raise e /\
              raised_by_collaborator e)).
Proof.
  intros self. split; [split; [apply in_order_perm | apply example_calls_rings_ok]|].
  exact (intersect_raises_collaborators_errors (K := planar.kernel) planar.numbering
           planar.in_order in_order_perm example_calls (square 5 5 15 15)
           example_calls_rings_ok).
Defined.

Lemma save_load_round_trip_witness :
  let self := index_of example_ops in
  ((forall t, planar.in_order t ≡ₚ t) /\ consistent planar.numbering self /\
   _rtree self <> []) /\
  exists (fs' : files) (self' : Polygon_File_Index),
    save planar.in_order "index.json" self ∅ = (Ok tt, fs') /\
    load fs' "index.json" __init__ = (Ok tt, self') /\
    size self' = size self /\
    _polygons self' = _polygons self /\
    _rtree self' ≡ₚ _rtree self.
Proof.
  intros self.
  assert (Hc : consistent planar.numbering self).
  { apply index_of_consistent; vm_compute; reflexivity. }
  assert (Hne : _rtree self <> []) by (vm_compute; discriminate).
  split; [split; [apply in_order_perm|done]|].
  exact (save_load_round_trip planar.numbering planar.in_order in_order_perm
           self "index.json" ∅ Hc Hne).
Defined.

(** ** Frame and order *)

Section frame.

Context {K : geometry.Kernel}.
Variable hash_string : string -> Z.
Variable traverse : index.Index -> index.Index.
Hypothesis traverse_perm : forall t, traverse t ≡ₚ t.

Lemma remove_entry_keeps i b t it :
  it ∈ t -> index.id it <> i -> it ∈ index.remove_entry i b t.
Proof.
  induction t as [|it0 t IH]; intros Hit Hid; [done|]. simpl.
  apply elem_of_cons in Hit as [->|Hit].
  - apply Z.eqb_neq in Hid. rewrite Hid. simpl. by left.
  - destruct (_ && _); [done|]. right. by apply IH.
Qed.

(** X17. [insert] and [update] of a record touch its key only, whatever
    their outcome: the polygon registered for any other key stays,
    [insert] takes no entry out of the tree, and [update] takes out no
    entry whose identifier is not the digest of the key as a signed 64-bit
    integer. *)
Theorem mutations_touch_one_key (d : data) k (self : Polygon_File_Index) :
  file d = Some k ->
  (forall k', k' <> k ->
     _polygons (snd (insert hash_string d self)) !! k' = _polygons self !! k' /\
     _polygons (snd (update hash_string d self)) !! k' = _polygons self !! k') /\
  (forall it, it ∈ _rtree self -> it ∈ _rtree (snd (insert hash_string d self))) /\
  (forall it, it ∈ _rtree self -> index.id it <> index.c_int64 (hash_string k) ->
              it ∈ _rtree (snd (update hash_string d self))).
Proof.
  intros Hk.
  assert (Hins : forall s : Polygon_File_Index,
            (forall k', k' <> k ->
               _polygons (snd (insert hash_string d s)) !! k' = _polygons s !! k') /\
            (forall it, it ∈ _rtree s -> it ∈ _rtree (snd (insert hash_string d s)))).
  { intros s.
    destruct (insert_state hash_string d s)
      as [->|(k0 & c & pl & Hk0 & Hc & Hr & Hnew & [[Hv ->]|[Hv ->]])]; [done| |].
    - rewrite Hk in Hk0. injection Hk0 as <-. split.
      + intros k' Hne. simpl. by rewrite lookup_insert_ne.
      + intros it Hit. simpl. apply elem_of_app. by left.
    - rewrite Hk in Hk0. injection Hk0 as <-. split; [|done].
      intros k' Hne. simpl. by rewrite lookup_insert_ne. }
  split; [|split].
  - intros k' Hne. split; [by apply Hins|].
    destruct (update_state hash_string d self)
      as [->|(k0 & c & Hk0 & Hc & [[Hnew ->]|(pl & npl & Hpl & Hr & ->)])]; [done| |].
    + by apply Hins.
    + rewrite Hk in Hk0. injection Hk0 as <-.
      destruct (Hins (removed hash_string k pl self)) as [H1 _].
      rewrite H1 by done. simpl. by rewrite lookup_delete_ne.
  - apply Hins.
  - intros it Hit Hid.
    destruct (update_state hash_string d self)
      as [->|(k0 & c & Hk0 & Hc & [[Hnew ->]|(pl & npl & Hpl & Hr & ->)])]; [done| |].
    + by apply Hins.
    + rewrite Hk in Hk0. injection Hk0 as <-. apply Hins. simpl.
      by apply remove_entry_keeps.
Qed.

Lemma load_body_loadable (x : entry) (self : Polygon_File_Index) :
  loadable x ->
  exists i b o k c pl,
    item_of x = Some (index.mk_item (index.c_int64 i) b o) /\
    entry_key x = Some k /\ entry_coords x = Some c /\ index.valid b = true /\
    geometry.Polygon c = Ok pl /\
    load_body x self = (Ok tt, appended i b o k pl self).
Proof.
  intros ([i Hi] & (b & Hb & Hv) & [k Hk] & (c & pl & Hc & Hr)).
  unfold entry_key in Hk. unfold entry_coords in Hc. unfold item_of.
  destruct (e_object x) as [o|] eqn:Ho; [|done].
  exists i, b, o, k, c, pl. rewrite Hi, Hb. unfold entry_key, entry_coords. rewrite Ho.
  split; [done|]. split; [done|]. split; [done|]. split; [done|]. split; [done|].
  by apply (load_body_accept x i b o k c pl).
Qed.

(** Loading entries that have all [load] asks for. *)
Lemma load_loadable (xs : list entry) (self : Polygon_File_Index) :
  Forall loadable xs ->
  exists self',
    for_ xs load_body self = (Ok tt, self') /\
    _rtree self' = _rtree self ++ omap item_of xs /\
    length (omap item_of xs) = length xs /\
    forall k, (forall x, x ∈ xs -> entry_key x <> Some k) ->
              _polygons self' !! k = _polygons self !! k.
Proof.
  intros HF. revert self. induction HF as [|x xs Hx HF IH]; intros self.
  - exists self. split; [done|]. split; [by rewrite app_nil_r|]. done.
  - destruct (load_body_loadable x self Hx)
      as (i & b & o & k & c & pl & Hit & Hk & Hc & Hv & Hr & Hld).
    destruct (IH (appended i b o k pl self)) as (self' & Hrun & Htree & Hlen & Hreg).
    exists self'. split; [|split; [|split]].
    + simpl. unfold bind at 1. by rewrite Hld.
    + rewrite Htree. simpl. rewrite Hit. by rewrite <- app_assoc.
    + simpl. rewrite Hit. simpl. f_equal. exact Hlen.
    + intros k' Hno. rewrite Hreg by (intros y Hy; apply Hno; by right).
      simpl. rewrite lookup_insert_ne; [done|]. intros ->. apply (Hno x); [by left|done].
Qed.

(** X18. [load] of a file all of whose entries have an identifier, a box
    the tree accepts and a payload with both fields from whose
    coordinates the kernel builds a polygon returns, appends one tree
    entry per file entry in file order, and for the registry the last
    entry of a key decides: the key is registered with the polygon of its
    last entry in the file, and keys the file does not mention keep their
    polygon. *)
Theorem load_last_entry_wins (fs : files) fn (xs : list entry)
  (self : Polygon_File_Index) :
  fs !! fn = Some xs -> Forall loadable xs ->
  exists self',
    load fs fn self = (Ok tt, self') /\
    _rtree self' = _rtree self ++ omap item_of xs /\
    length (_rtree self') = (length (_rtree self) + length xs)%nat /\
    (forall k, (forall x, x ∈ xs -> entry_key x <> Some k) ->
               _polygons self' !! k = _polygons self !! k) /\
    (forall xs1 x xs2 k c pl,
        xs = xs1 ++ x :: xs2 -> entry_key x = Some k -> entry_coords x = Some c ->
        geometry.Polygon c = Ok pl ->
        (forall y, y ∈ xs2 -> entry_key y <> Some k) ->
        _polygons self' !! k = Some pl).
Proof.
  intros Hfn HF. destruct (load_loadable xs self HF) as (self' & Hrun & Htree & Hlen & Hreg).
  exists self'. split; [by unfold load; rewrite Hfn|]. split; [done|].
  split; [by rewrite Htree, length_app, Hlen|]. split; [done|].
  intros xs1 x xs2 k c pl -> Hk Hc Hr Hlast.
  apply Forall_app in HF as [HF1 HF2]. apply Forall_cons in HF2 as [Hx HF2].
  rewrite for_app in Hrun. unfold bind in Hrun.
  destruct (load_loadable xs1 self HF1) as (s1 & Hrun1 & _). rewrite Hrun1 in Hrun.
  simpl in Hrun. unfold bind in Hrun.
  destruct (load_body_loadable x s1 Hx)
    as (i & b & o & k' & c' & pl' & _ & Hk' & Hc' & _ & Hr' & Hld).
  rewrite Hk in Hk'. injection Hk' as <-. rewrite Hc in Hc'. injection Hc' as <-.
  rewrite Hr in Hr'. injection Hr' as <-.
  rewrite Hld in Hrun.
  destruct (load_loadable xs2 (appended i b o k pl s1) HF2) as (s2 & Hrun2 & _ & _ & Hreg2).
  rewrite Hrun2 in Hrun. injection Hrun as <-.
  rewrite Hreg2 by done. apply lookup_insert_eq.
Qed.

(** X19. After calls that load no coordinates from which the kernel
    builds no polygon, an index with entries can be saved and loaded back
    into a fresh index without raising, and the tree comes back entry for
    entry (identifier, box and payload), in the order of the traversal; so
    the size is kept, whether or not the registry was consistent with the
    tree. *)
Theorem save_load_keeps_tree (cs : list call) fn (fs : files) :
  let self := after hash_string cs in
  Forall rings_ok cs ->
  _rtree self <> [] ->
  exists fs' self',
    save traverse fn self fs = (Ok tt, fs') /\
    load fs' fn __init__ = (Ok tt, self') /\
    _rtree self' = traverse (_rtree self) /\
    size self' = size self.
Proof.
  intros self Hcs Hne.
  pose proof (after_tree_ok hash_string cs Hcs) as Hok. fold self in Hok.
  pose proof (after_valid hash_string cs) as Hv. fold self in Hv.
  assert (Hok' : Forall (entry_ok self) (traverse (_rtree self))).
  { unfold tree_ok in Hok. rewrite Forall_forall in *. intros it Hit. apply Hok.
    by rewrite <- (traverse_perm (_rtree self)). }
  assert (HF : Forall loadable (entry_of <$> traverse (_rtree self))).
  { apply Forall_fmap. eapply Forall_impl; [exact Hok'|].
    intros it (_ & Hvb & k & c & pl & Hk & Hc & Hr & _).
    unfold loadable, entry_key, entry_coords. simpl. rewrite Hk, Hc. eauto 10. }
  destruct (load_loadable _ __init__ HF) as (self' & Hrun & Htree & _ & _).
  assert (Hitems : forall l : list index.Item,
            Forall (entry_ok self) l -> omap item_of (entry_of <$> l) = l).
  { induction 1 as [|it l Hit _ IH]; [done|]. rewrite fmap_cons. simpl.
    unfold item_of at 1. simpl. destruct Hit as [Hid _]. rewrite Hid.
    f_equal; [by destruct it|exact IH]. }
  rewrite (Hitems _ Hok') in Htree. simpl in Htree.
  exists (<[fn := entry_of <$> traverse (_rtree self)]> fs), self'.
  split; [by apply save_nonempty|]. split; [|split; [done|]].
  - unfold load. by rewrite lookup_insert_eq.
  - unfold size. rewrite !get_size_length; [by rewrite Htree, (traverse_perm (_rtree self))|done|].
    unfold index.all_valid in *. by rewrite Htree, (traverse_perm (_rtree self)).
Qed.

End frame.

Lemma mutations_touch_one_key_witness :
  let self := index_of [Insert record_A; Insert record_B] in
  let d := record "A" (square 0 0 10 12) in
  file d = Some "A" /\
  (forall k', k' <> "A" ->
     _polygons (snd (insert planar.numbering d self)) !! k' = _polygons self !! k' /\
     _polygons (snd (update planar.numbering d self)) !! k' = _polygons self !! k') /\
  (forall it, it ∈ _rtree self -> it ∈ _rtree (snd (insert planar.numbering d self))) /\
  (forall it, it ∈ _rtree self -> index.id it <> index.c_int64 (planar.numbering "A") ->
              it ∈ _rtree (snd (update planar.numbering d self))).
Proof.
  intros self d. split; [done|].
  exact (mutations_touch_one_key planar.numbering d "A" self eq_refl).
Defined.

Lemma load_last_entry_wins_witness :
  let older := {| e_id := Some 7%Z;
                  e_bbox := Some {| minx := 0; miny := 0; maxx := 1; maxy := 1 |};
                  e_object := Some (record "A" (square 0 0 1 1)) |} in
  let xs := [older; entry_C; entry_A] in
  let fs : files := {[ "twice.json" := xs ]} in
  let self := index_of [Insert record_B] in
  let pl : @geometry.polygon_t planar.kernel := planar.close (square 0 0 10 10) in
  (fs !! "twice.json" = Some xs /\ Forall (loadable (K := planar.kernel)) xs) /\
  exists self',
    load fs "twice.json" self = (Ok tt, self') /\
    length (_rtree self') = 4%nat /\
    _polygons self' !! "A" = Some pl /\
    _polygons self' !! "B" = _polygons self !! "B".
Proof.
  intros older xs fs self pl.
  assert (Hfs : fs !! "twice.json" = Some xs) by (vm_compute; reflexivity).
  assert (HF : Forall (loadable (K := planar.kernel)) xs).
  { repeat constructor; simpl; eauto. }
  split; [done|].
  destruct (load_last_entry_wins (K := planar.kernel) fs "twice.json" xs self Hfs HF)
    as (self' & Hload & _ & Hlen & Hkeep & Hlast).
  exists self'. split; [done|]. split; [done|]. split.
  - apply (Hlast [older; entry_C] entry_A [] "A" (square 0 0 10 10) pl); try done.
    intros y Hy. by apply elem_of_nil in Hy.
  - apply Hkeep. intros x Hx. unfold xs in Hx.
    apply elem_of_cons in Hx as [->|Hx]; [done|].
    apply elem_of_cons in Hx as [->|Hx]; [done|].
    apply list_elem_of_singleton in Hx as ->. done.
Defined.

Lemma save_load_keeps_tree_witness :
  let self := after (K := planar.kernel) planar.numbering example_calls in
  ((forall t, planar.in_order t ≡ₚ t) /\
   Forall (rings_ok (K := planar.kernel)) example_calls /\
   _rtree self <> []) /\
  exists (fs' : files) (self' : Polygon_File_Index),
    save planar.in_order "index.json" self ∅ = (Ok tt, fs') /\
    load fs' "index.json" __init__ = (Ok tt, self') /\
    _rtree self' = planar.in_order (_rtree self) /\
    size self' = size self.
Proof.
  intros self.
  assert (Hne : _rtree self <> []) by (vm_compute; discriminate).
  split; [split; [apply in_order_perm | split; [apply example_calls_rings_ok | done]]|].
  exact (save_load_keeps_tree (K := planar.kernel) planar.numbering planar.in_order
           in_order_perm example_calls "index.json" ∅ example_calls_rings_ok Hne).
Defined.
